(** * Automatic Domain Randomization: a model of [gym/adr_envs/adr.py]

    The development follows the Python module class by class.  Python
    numbers are idealised as exact rationals ([Q]), so rounding, [nan]
    and infinite values are outside the model; the only infinite
    quantities the module itself builds are the bounds [-math.inf] (as a
    lower bound) and [math.inf] (as an upper bound), and a bound is either
    a rational or the infinity of its own side.  Objects that the program
    shares by reference (parameters owned by a distribution and listed
    again by the engine, distributions listed by the engine and kept in
    its registry) live in an explicit store and are named by their
    address.  The generator of [np.random] is an explicit pair of streams
    of draws, and [np.exp] is a parameter. *)

From Stdlib Require Import QArith Qminmax Qabs ZArith Lia Lqa List Bool.
From stdpp Require Import gmap strings list fin_maps pretty.
Import ListNotations.

(** ** Python: exceptions and results *)

Module Py.

(** [InvalidAddress] is not a Python exception: it marks an address
    outside the store, which no Python program can hold. *)
Inductive exn : Type :=
| TypeError
| AttributeError (attr : string)
| NameError (name : string)
| IndexError
| ValueError
| NotImplementedError
| RecursionError
| InvalidAddress.

Inductive result (A : Type) : Type :=
| Ok (a : A)
| Raise (e : exn).
Arguments Ok {A} a.
Arguments Raise {A} e.

(** Addresses of parameter objects and of distribution objects. *)
Definition pref : Type := nat.
Definition dref : Type := nat.

(** The values an attribute such as [parameters] can hold. *)
#[warnings="-register-all"] Inductive pyval : Type :=
| VNone
| VParam (r : pref)
| VList (l : list pyval)
| VMethod (obj : dref) (meth : string).

(** [a + b]: defined on two lists only. *)
Definition add (a b : pyval) : result pyval :=
  match a, b with
  | VList x, VList y => Ok (VList (x ++ y))
  | _, _ => Raise TypeError
  end.

(** Iterating over a value ([for x in v], [list += v]). *)
Definition iter (v : pyval) : result (list pyval) :=
  match v with
  | VList l => Ok l
  | _ => Raise TypeError
  end.

(** [l[i]] for an integer [i], negative indices counting from the end. *)
Definition getitem {A : Type} (l : list A) (i : Z) : result A :=
  let n := Z.of_nat (length l) in
  let j := if (i <? 0)%Z then (i + n)%Z else i in
  if ((j <? 0) || (n <=? j))%Z then Raise IndexError
  else match nth_error l (Z.to_nat j) with
       | Some a => Ok a
       | None => Raise IndexError
       end.

(** [l[i]] where [i] may be [None]. *)
Definition getitem_opt {A : Type} (l : list A) (i : option Z) : result A :=
  match i with
  | None => Raise TypeError
  | Some i => getitem l i
  end.

(** Computations over a state [S] that may raise; the state reached when
    an exception is raised is kept, as Python does not undo mutations. *)
Definition M (S A : Type) : Type := S -> result A * S.

Definition ret {S A} (a : A) : M S A := fun s => (Ok a, s).

Definition raise {S A} (e : exn) : M S A := fun s => (Raise e, s).

Definition mbind {S A B} (c : M S A) (k : A -> M S B) : M S B :=
  fun s =>
    match c s with
    | (Ok a, s') => k a s'
    | (Raise e, s') => (Raise e, s')
    end.

Definition lift {S A} (r : result A) : M S A := fun s => (r, s).

Definition modify {S} (f : S -> S) : M S unit := fun s => (Ok tt, f s).

(** [for x in l: body(x)]. *)
Fixpoint for_each {S A} (l : list A) (body : A -> M S unit) : M S unit :=
  match l with
  | [] => ret tt
  | x :: l' => mbind (body x) (fun _ => for_each l' body)
  end.

(** [[body(x) for x in l]], and a loop that appends each result. *)
Fixpoint map_each {S A B} (l : list A) (body : A -> M S B) : M S (list B) :=
  match l with
  | [] => ret []
  | x :: l' =>
      mbind (body x) (fun y => mbind (map_each l' body) (fun ys => ret (y :: ys)))
  end.

End Py.

Notation "x <- c ;; k" := (Py.mbind c (fun x => k))
  (at level 100, c at next level, right associativity).
Notation "c ;;; k" := (Py.mbind c (fun _ => k))
  (at level 100, right associativity).

(** ** The two enumerations *)

Inductive Bound : Type := LOWER | UPPER.
Inductive Direction : Type := EXPAND | SHRINK.

(** [IntEnum] values: [LOWER, UPPER = range(2)]. *)
Definition Bound_value (b : Bound) : nat :=
  match b with LOWER => 0%nat | UPPER => 1%nat end.

Definition Direction_value (d : Direction) : nat :=
  match d with EXPAND => 0%nat | SHRINK => 1%nat end.

(** A two-element list such as [p_thresh] or [val_bound], read at a
    [Bound]. *)
Definition at_bound {A : Type} (p : A * A) (b : Bound) : A :=
  match b with LOWER => fst p | UPPER => snd p end.

(** ** numpy primitives on exact numbers *)

Module Np.
Local Open Scope Q_scope.

Definition Qltb (x y : Q) : bool := negb (Qle_bool y x).

Definition sum (l : list Q) : Q := fold_left Qplus l 0.

(** [np.mean] of a Python list. *)
Definition mean (l : list Q) : Q := sum l / inject_Z (Z.of_nat (length l)).

(** A bound of [np.clip]: [None] is the infinity of that side. *)
Definition maximum (x : Q) (lo : option Q) : Q :=
  match lo with
  | None => x
  | Some l => Qmax x l
  end.

Definition minimum (x : Q) (hi : option Q) : Q :=
  match hi with
  | None => x
  | Some h => Qmin x h
  end.

(** [np.clip(x, lo, hi)] is [minimum(maximum(x, lo), hi)]. *)
Definition clip (x : Q) (lo hi : option Q) : Q := minimum (maximum x lo) hi.

(** [np.random]: the generator hands out the draws of two fixed streams,
    one of uniform draws from [0, 1) and one of standard normal draws. *)
Record RandomState : Type := mkRandomState {
  uniforms : nat -> Q;
  normals : nat -> Q;
  u_next : nat;
  n_next : nat
}.

Definition random_sample (r : RandomState) : Q * RandomState :=
  (uniforms r (u_next r),
   mkRandomState (uniforms r) (normals r) (S (u_next r)) (n_next r)).

Definition standard_normal (r : RandomState) : Q * RandomState :=
  (normals r (n_next r),
   mkRandomState (uniforms r) (normals r) (u_next r) (S (n_next r))).

(** [np.random.uniform(low, high)] is [low + (high - low) * random_sample()]. *)
Definition uniform (low high : Q) (r : RandomState) : Q * RandomState :=
  let (u, r') := random_sample r in (low + (high - low) * u, r').

(** [np.random.normal(loc, scale)]: a negative scale is rejected. *)
Definition normal (loc scale : Q) (r : RandomState)
  : Py.result Q * RandomState :=
  if Qltb scale 0 then (Py.Raise Py.ValueError, r)
  else let (z, r') := standard_normal r in (Py.Ok (loc + scale * z), r').

Fixpoint cumsum_from (acc : Q) (l : list Q) : list Q :=
  match l with
  | [] => []
  | x :: l' => (acc + x) :: cumsum_from (acc + x) l'
  end.

Definition cumsum (l : list Q) : list Q := cumsum_from 0 l.

(** [a.searchsorted(v, side='right')] on an ascending array: the first
    index whose entry exceeds [v]. *)
Fixpoint searchsorted_right (a : list Q) (v : Q) : nat :=
  match a with
  | [] => 0%nat
  | x :: a' => if Qle_bool x v then S (searchsorted_right a' v) else 0%nat
  end.

(** [np.random.choice(n, p=p)] as numpy computes it: [n] must be positive,
    [p] of size [n], without negative entry and summing to 1; then
    [cdf = p.cumsum()], [cdf /= cdf[-1]], one [random_sample()] and
    [cdf.searchsorted(u, side='right')]. *)
Definition choice (n : nat) (p : list Q) (r : RandomState)
  : Py.result nat * RandomState :=
  if (n =? 0)%nat then (Py.Raise Py.ValueError, r)
  else if negb (length p =? n)%nat then (Py.Raise Py.ValueError, r)
  else if existsb (fun x => Qltb x 0) p then (Py.Raise Py.ValueError, r)
  else if negb (Qeq_bool (sum p) 1) then (Py.Raise Py.ValueError, r)
  else
    let cdf := cumsum p in
    let cdf := map (fun c => c / List.last cdf 0) cdf in
    let (u, r') := random_sample r in
    (Py.Ok (searchsorted_right cdf u), r').

End Np.

(** ** [class ADRParam] *)

Module ADRParam.
Local Open Scope Q_scope.

(** [val_bound] is the pair [lower, upper]; [None] in the first place
    is [-math.inf], [None] in the second place is [math.inf]. *)
Record t : Type := mk {
  value : Q;
  val_bound : option Q * option Q;
  delta : Q;
  pq_size : Z;
  pq : list Q;
  boundary_sample_weight : Q;
  boundary_sample_flag : bool;
  name : string
}.

Definition set_value (self : t) (v : Q) : t :=
  mk v (val_bound self) (delta self) (pq_size self) (pq self)
     (boundary_sample_weight self) (boundary_sample_flag self) (name self).

Definition set_pq (self : t) (q : list Q) : t :=
  mk (value self) (val_bound self) (delta self) (pq_size self) q
     (boundary_sample_weight self) (boundary_sample_flag self) (name self).

Definition set_name (self : t) (n : string) : t :=
  mk (value self) (val_bound self) (delta self) (pq_size self) (pq self)
     (boundary_sample_weight self) (boundary_sample_flag self) n.

(** [__init__] with its defaults written out by the callers below. *)
Definition init (value : Q) (val_bound : option Q * option Q) (delta : Q)
    (pq_size : Z) (boundary_sample_weight : Q) (name : string) : t :=
  mk value val_bound delta pq_size [] boundary_sample_weight false name.

Definition default_val_bound : option Q * option Q := (None, None).
Definition default_delta : Q := 2 # 100.
Definition default_pq_size : Z := 240.
Definition default_boundary_sample_weight : Q := 1.

Definition fixed_boundary (val : Q) : t :=
  init val default_val_bound 0 0 0 EmptyString.

(** The test [len(self.pq) >= self.pq_size], taken after the append. *)
Definition pq_full (self : t) (p_val : Q) : bool :=
  (pq_size self <=? Z.of_nat (length (pq self ++ [p_val])))%Z.

(** The [if]/[elif] on the average. *)
Definition decide_value (self : t) (pq_avg : Q) (p_thresh : Q * Q) : Q :=
  if Np.Qltb pq_avg (at_bound p_thresh LOWER) then value self - delta self
  else if Np.Qltb (at_bound p_thresh UPPER) pq_avg then value self + delta self
  else value self.

Definition update (self : t) (p_val : Q) (p_thresh : Q * Q) : t :=
  let self := set_pq self (pq self ++ [p_val]) in
  if (pq_size self <=? Z.of_nat (length (pq self)))%Z then
    let pq_avg := Np.mean (pq self) in
    let self := set_pq self [] in
    let self := set_value self (decide_value self pq_avg p_thresh) in
    set_value self
      (Np.clip (value self) (at_bound (val_bound self) LOWER)
               (at_bound (val_bound self) UPPER))
  else self.

Definition get_boundary_sample_flag (self : t) : bool :=
  boundary_sample_flag self.

Definition set_boundary_sample_flag (self : t) (flag_val : bool) : t :=
  mk (value self) (val_bound self) (delta self) (pq_size self) (pq self)
     (boundary_sample_weight self) flag_val (name self).

Definition get_boundary_sample_weight (self : t) : Q :=
  boundary_sample_weight self.

Definition get_value (self : t) : Q := value self.

(** A run of [update] calls, each with its own thresholds. *)
Definition updates (self : t) (calls : list (Q * (Q * Q))) : t :=
  fold_left (fun p c => update p (fst c) (snd c)) calls self.

(** Feeding a list of performance values under fixed thresholds. *)
Definition feed (self : t) (p_vals : list Q) (p_thresh : Q * Q) : t :=
  fold_left (fun p v => update p v p_thresh) p_vals self.

(** [low <= value <= high], with the infinite bounds always satisfied. *)
Definition within (v : Q) (b : option Q * option Q) : Prop :=
  match at_bound b LOWER with None => True | Some l => l <= v end /\
  match at_bound b UPPER with None => True | Some h => v <= h end.

End ADRParam.

(** [np.exp] is left abstract; [g_func] is built on it. *)
Class Exp : Type := np_exp : Q -> Q.

Definition g_func `{Exp} (x : Q) : Q := np_exp (x - 1)%Q.

(** ** [class ADRDist]: the instances of the class and of its subclasses *)

Module ADRDist.

(** The attributes a subclass adds to the three of the base class.  An
    [AdditiveGaussian] has [alpha] only if something assigned it. *)
Inductive fields : Type :=
| Base
| Uniform (phi_l phi_h : Py.pref)
| AdditiveGaussian (x_0 : Q) (lam_i lam_j : Py.dref) (alpha : option Q)
| UnbiasedAdditiveGaussian (x_0 : Q) (lam_i : Py.dref) (alpha : Q)
| Multiplicative (x_0 : Q) (lam_i lam_j : Py.dref) (alpha : Q)
| ActionNoise (a_0 : Q) (lam_i lam_j lam_k : Py.dref).

(** [last_sample] is [None] until the first sample. *)
Record t : Type := mk {
  last_sample : option Q;
  parameters : Py.pyval;
  name : string;
  own : fields
}.

Definition set_last_sample (self : t) (x : option Q) : t :=
  mk x (parameters self) (name self) (own self).

Definition set_name (self : t) (n : string) : t :=
  mk (last_sample self) (parameters self) n (own self).

(** What [ADRDist.__init__] assigns. *)
Definition init_attrs : list string := ["last_sample"; "parameters"; "name"].

(** The names every instance finds on its class. *)
Definition class_attrs : list string :=
  ["__init__"; "get_parameters"; "episode_sample"; "step_sample";
   "get_last_sample"].

(** Reading [self.<attr>] when the instance has [assigned] so far. *)
Definition getattr (assigned : list string) (attr : string) : Py.result unit :=
  if bool_decide (attr ∈ assigned ++ class_attrs) then Py.Ok tt
  else Py.Raise (Py.AttributeError attr).

End ADRDist.

(** ** The store: parameter objects, distribution objects, the generator *)

Record store : Type := mkStore {
  params : list ADRParam.t;
  dists : list ADRDist.t;
  random : Np.RandomState
}.

Module Heap.

Definition read_param (r : Py.pref) : Py.M store ADRParam.t :=
  fun s => match params s !! r with
           | Some p => (Py.Ok p, s)
           | None => (Py.Raise Py.InvalidAddress, s)
           end.

Definition write_param (r : Py.pref) (p : ADRParam.t) : Py.M store unit :=
  Py.modify (fun s => mkStore (<[r := p]> (params s)) (dists s) (random s)).

Definition alloc_param (p : ADRParam.t) : Py.M store Py.pref :=
  fun s => (Py.Ok (length (params s)),
            mkStore (params s ++ [p]) (dists s) (random s)).

Definition read_dist (d : Py.dref) : Py.M store ADRDist.t :=
  fun s => match dists s !! d with
           | Some x => (Py.Ok x, s)
           | None => (Py.Raise Py.InvalidAddress, s)
           end.

Definition write_dist (d : Py.dref) (x : ADRDist.t) : Py.M store unit :=
  Py.modify (fun s => mkStore (params s) (<[d := x]> (dists s)) (random s)).

Definition alloc_dist (x : ADRDist.t) : Py.M store Py.dref :=
  fun s => (Py.Ok (length (dists s)),
            mkStore (params s) (dists s ++ [x]) (random s)).

(** A draw that cannot fail, and one that can. *)
Definition draw {A} (f : Np.RandomState -> A * Np.RandomState)
  : Py.M store A :=
  fun s => let (a, r) := f (random s) in
           (Py.Ok a, mkStore (params s) (dists s) r).

Definition try_draw {A} (f : Np.RandomState -> Py.result A * Np.RandomState)
  : Py.M store A :=
  fun s => let (a, r) := f (random s) in
           (a, mkStore (params s) (dists s) r).

(** [dist.last_sample = x] and [dist.name = n] on the object at [d]. *)
Definition set_last_sample (d : Py.dref) (x : Q) : Py.M store unit :=
  self <- read_dist d ;;
  write_dist d (ADRDist.set_last_sample self (Some x)).

Definition set_name (d : Py.dref) (n : string) : Py.M store unit :=
  self <- read_dist d ;;
  write_dist d (ADRDist.set_name self n).

(** [dist.get_parameters()] and [dist.get_last_sample()]. *)
Definition get_parameters (d : Py.dref) : Py.M store Py.pyval :=
  self <- read_dist d ;; Py.ret (ADRDist.parameters self).

Definition get_last_sample (d : Py.dref) : Py.M store (option Q) :=
  self <- read_dist d ;; Py.ret (ADRDist.last_sample self).

(** A number is expected where [get_last_sample()] may still be [None]. *)
Definition number (x : option Q) : Py.M store Q :=
  match x with
  | Some q => Py.ret q
  | None => Py.raise Py.TypeError
  end.

End Heap.

(** ** [class ADRUniform] *)

Module ADRUniform.
Import Heap.
Local Open Scope Q_scope.

Definition update_boundary_names (d : Py.dref) : Py.M store unit :=
  self <- read_dist d ;;
  match ADRDist.own self with
  | ADRDist.Uniform phi_l phi_h =>
      l <- read_param phi_l ;;
      write_param phi_l (ADRParam.set_name l (ADRDist.name self +:+ "_l")) ;;;
      h <- read_param phi_h ;;
      write_param phi_h (ADRParam.set_name h (ADRDist.name self +:+ "_r"))
  | _ => Py.raise (Py.AttributeError "update_boundary_names")
  end.

Definition init (phi_l phi_h : Py.pref) (name : string) : Py.M store Py.dref :=
  d <- alloc_dist
         (ADRDist.mk None (Py.VList [Py.VParam phi_l; Py.VParam phi_h]) name
                     (ADRDist.Uniform phi_l phi_h)) ;;
  update_boundary_names d ;;;
  Py.ret d.

(** The body of the loop over [self.parameters]. *)
Definition consume_flag (d : Py.dref) (param : Py.pyval) : Py.M store unit :=
  match param with
  | Py.VParam r =>
      p <- read_param r ;;
      if ADRParam.get_boundary_sample_flag p then
        write_param r (ADRParam.set_boundary_sample_flag p false) ;;;
        p <- read_param r ;;
        set_last_sample d (ADRParam.get_value p)
      else Py.ret tt
  | _ => Py.raise (Py.AttributeError "get_boundary_sample_flag")
  end.

Definition episode_sample (d : Py.dref) (phi_l phi_h : Py.pref)
  : Py.M store Q :=
  self <- read_dist d ;;
  ps <- Py.lift (Py.iter (ADRDist.parameters self)) ;;
  Py.for_each ps (consume_flag d) ;;;
  l <- read_param phi_l ;;
  h <- read_param phi_h ;;
  x <- draw (Np.uniform (ADRParam.get_value l) (ADRParam.get_value h)) ;;
  set_last_sample d x ;;;
  self <- read_dist d ;;
  number (ADRDist.last_sample self).

Definition from_bounds_only (low_value high_value : Q) (name : string)
  : Py.M store Py.dref :=
  let midpoint := (low_value + high_value) / 2 in
  l <- alloc_param
         (ADRParam.init low_value (None, Some midpoint)
            ADRParam.default_delta ADRParam.default_pq_size
            ADRParam.default_boundary_sample_weight EmptyString) ;;
  r <- alloc_param
         (ADRParam.init high_value (Some midpoint, None)
            ADRParam.default_delta ADRParam.default_pq_size
            ADRParam.default_boundary_sample_weight EmptyString) ;;
  init l r name.

Definition centered_around (low start high delta : Q) (pq_size : Z)
    (boundary_sample_weight : Q) (name : string) : Py.M store Py.dref :=
  l <- alloc_param
         (ADRParam.init start (Some low, Some start) (- delta) pq_size
            boundary_sample_weight EmptyString) ;;
  r <- alloc_param
         (ADRParam.init start (Some start, Some high) delta pq_size
            boundary_sample_weight EmptyString) ;;
  init l r name.

Definition fixed_value (value : Q) (name : string) : Py.M store Py.dref :=
  l <- alloc_param (ADRParam.fixed_boundary value) ;;
  r <- alloc_param (ADRParam.fixed_boundary value) ;;
  init l r name.

End ADRUniform.

(** ** The compound distributions

    A method that samples a child does so through [sample], the dispatch
    of [lam.episode_sample()] on the child's class. *)

Module ADRAdditiveGaussian.
Import Heap.
Local Open Scope Q_scope.

(** [self.alpha] is read, not assigned; [get_parameters] of [lam_j] is
    not called; the sum is wrapped in a list. *)
Definition init (x_0 : Q) (lam_i lam_j : Py.dref) (alpha : Q)
  : Py.M store Py.dref :=
  let assigned := ADRDist.init_attrs ++ ["x_0"; "lam_i"; "lam_j"] in
  Py.lift (ADRDist.getattr assigned "alpha") ;;;
  p_i <- get_parameters lam_i ;;
  s <- Py.lift (Py.add p_i (Py.VMethod lam_j "get_parameters")) ;;
  alloc_dist (ADRDist.mk None (Py.VList [s]) EmptyString
                         (ADRDist.AdditiveGaussian x_0 lam_i lam_j None)).

Definition episode_sample `{Exp} (sample : Py.dref -> Py.M store Q)
    (d : Py.dref) (x_0 : Q) (lam_i lam_j : Py.dref) (alpha : option Q)
  : Py.M store Q :=
  match alpha with
  | None => Py.raise (Py.AttributeError "alpha")
  | Some alpha =>
      s_i <- sample lam_i ;;
      s_j <- sample lam_j ;;
      n <- try_draw (Np.normal (g_func (alpha * s_i))
                               (g_func (Qabs (alpha * s_j)))) ;;
      set_last_sample d (x_0 + Qabs n) ;;;
      self <- read_dist d ;;
      number (ADRDist.last_sample self)
  end.

End ADRAdditiveGaussian.

Module ADRUnbiasedAdditiveGaussian.
Import Heap.
Local Open Scope Q_scope.

Definition init (x_0 : Q) (lam_i : Py.dref) (alpha : Q) : Py.M store Py.dref :=
  p_i <- get_parameters lam_i ;;
  alloc_dist (ADRDist.mk None p_i EmptyString
                         (ADRDist.UnbiasedAdditiveGaussian x_0 lam_i alpha)).

Definition episode_sample `{Exp} (sample : Py.dref -> Py.M store Q)
    (d : Py.dref) (x_0 : Q) (lam_i : Py.dref) (alpha : Q) : Py.M store Q :=
  s_i <- sample lam_i ;;
  n <- try_draw (Np.normal 0 (g_func (Qabs (alpha * s_i)))) ;;
  set_last_sample d (x_0 + n) ;;;
  self <- read_dist d ;;
  number (ADRDist.last_sample self).

End ADRUnbiasedAdditiveGaussian.

Module ADRMultiplicative.
Import Heap.
Local Open Scope Q_scope.

(** [get_parameters] of [lam_j] is not called. *)
Definition init (x_0 : Q) (lam_i lam_j : Py.dref) (alpha : Q)
  : Py.M store Py.dref :=
  p_i <- get_parameters lam_i ;;
  s <- Py.lift (Py.add p_i (Py.VMethod lam_j "get_parameters")) ;;
  alloc_dist (ADRDist.mk None s EmptyString
                         (ADRDist.Multiplicative x_0 lam_i lam_j alpha)).

Definition episode_sample `{Exp} (sample : Py.dref -> Py.M store Q)
    (d : Py.dref) (x_0 : Q) (lam_i lam_j : Py.dref) (alpha : Q)
  : Py.M store Q :=
  s_i <- sample lam_i ;;
  s_j <- sample lam_j ;;
  n <- try_draw (Np.normal (alpha * s_i) (Qabs (alpha * s_j))) ;;
  set_last_sample d (x_0 * np_exp n) ;;;
  self <- read_dist d ;;
  number (ADRDist.last_sample self).

End ADRMultiplicative.

(** The names bound at module level, with the numbers among them (none);
    a name that is neither local nor here is unbound. *)
Inductive global : Type :=
| GNumber (q : Q)
| GObject.

Definition module_globals : list (string * global) :=
  [("np", GObject); ("math", GObject); ("IntEnum", GObject);
   ("Bound", GObject); ("Direction", GObject); ("g_func", GObject);
   ("ADRParam", GObject); ("ADRDist", GObject); ("ADRUniform", GObject);
   ("ADRAdditiveGaussian", GObject);
   ("ADRUnbiasedAdditiveGaussian", GObject);
   ("ADRMultiplicative", GObject); ("ADRActionNoise", GObject);
   ("ADR", GObject)].

Definition load_global (n : string) : Py.result global :=
  match list_find (fun b => fst b = n) module_globals with
  | Some (_, (_, g)) => Py.Ok g
  | None => Py.Raise (Py.NameError n)
  end.

(** [g * x] for a number [x]. *)
Definition global_times (g : global) (x : Q) : Py.result Q :=
  match g with
  | GNumber q => Py.Ok (q * x)%Q
  | GObject => Py.Raise Py.TypeError
  end.

Module ADRActionNoise.
Import Heap.
Local Open Scope Q_scope.

(** [get_parameters] of [lam_j] and of [lam_k] are not called. *)
Definition init (a_0 : Q) (lam_i lam_j lam_k : Py.dref) : Py.M store Py.dref :=
  p_i <- get_parameters lam_i ;;
  s <- Py.lift (Py.add p_i (Py.VMethod lam_j "get_parameters")) ;;
  s <- Py.lift (Py.add s (Py.VMethod lam_k "get_parameters")) ;;
  alloc_dist (ADRDist.mk None s EmptyString
                         (ADRDist.ActionNoise a_0 lam_i lam_j lam_k)).

(** The assignment reads the global [a_0], not [self.a_0], and ends with
    its first line; the two lines that follow are expressions whose value
    is dropped. *)
Definition step_sample `{Exp} (sample : Py.dref -> Py.M store Q)
    (d : Py.dref) (a_0 : Q) (lam_i lam_j lam_k : Py.dref) : Py.M store Q :=
  g <- Py.lift (load_global "a_0") ;;
  l_i <- get_last_sample lam_i ;;
  l_i <- number l_i ;;
  n_0 <- try_draw (Np.normal 1 (g_func (Qabs l_i))) ;;
  x <- Py.lift (global_times g n_0) ;;
  set_last_sample d x ;;;
  l_j <- get_last_sample lam_j ;;
  l_j <- number l_j ;;
  try_draw (Np.normal 0 (g_func (Qabs l_j))) ;;;
  s_k <- sample lam_k ;;
  try_draw (Np.normal 0 (g_func (Qabs s_k))) ;;;
  self <- read_dist d ;;
  number (ADRDist.last_sample self).

Definition episode_sample `{Exp} (sample : Py.dref -> Py.M store Q)
    (d : Py.dref) (a_0 : Q) (lam_i lam_j lam_k : Py.dref) : Py.M store Q :=
  sample lam_i ;;;
  sample lam_j ;;;
  step_sample sample d a_0 lam_i lam_j lam_k.

(** What the docstring of the class gives for a step:
    [a = a_0*n_0 + n_1 + n_2]. *)
Definition documented_step (a_0 n_0 n_1 n_2 : Q) : Q := a_0 * n_0 + n_1 + n_2.

End ADRActionNoise.

(** ** Method dispatch: [dist.episode_sample()] and [dist.step_sample()]

    The nesting of calls is bounded by the interpreter's recursion limit. *)

Module Dispatch.
Import Heap.

Definition recursion_limit : nat := 1000.

Fixpoint episode_sample_at `{Exp} (depth : nat) (d : Py.dref)
  : Py.M store Q :=
  match depth with
  | O => Py.raise Py.RecursionError
  | S depth =>
      self <- read_dist d ;;
      match ADRDist.own self with
      | ADRDist.Base => Py.raise Py.NotImplementedError
      | ADRDist.Uniform phi_l phi_h => ADRUniform.episode_sample d phi_l phi_h
      | ADRDist.AdditiveGaussian x_0 lam_i lam_j alpha =>
          ADRAdditiveGaussian.episode_sample
            (episode_sample_at depth) d x_0 lam_i lam_j alpha
      | ADRDist.UnbiasedAdditiveGaussian x_0 lam_i alpha =>
          ADRUnbiasedAdditiveGaussian.episode_sample
            (episode_sample_at depth) d x_0 lam_i alpha
      | ADRDist.Multiplicative x_0 lam_i lam_j alpha =>
          ADRMultiplicative.episode_sample
            (episode_sample_at depth) d x_0 lam_i lam_j alpha
      | ADRDist.ActionNoise a_0 lam_i lam_j lam_k =>
          ADRActionNoise.episode_sample
            (episode_sample_at depth) d a_0 lam_i lam_j lam_k
      end
  end.

Definition episode_sample `{Exp} (d : Py.dref) : Py.M store Q :=
  episode_sample_at recursion_limit d.

Definition step_sample `{Exp} (d : Py.dref) : Py.M store Q :=
  self <- read_dist d ;;
  match ADRDist.own self with
  | ADRDist.ActionNoise a_0 lam_i lam_j lam_k =>
      ADRActionNoise.step_sample
        (episode_sample_at (pred recursion_limit)) d a_0 lam_i lam_j lam_k
  | _ => Py.raise Py.NotImplementedError
  end.

End Dispatch.

(** ** [class ADR] *)

Module ADR.
Import Heap.
Local Open Scope Q_scope.

(** [sample_idx] is [None] until a boundary sample records an index. *)
Record t : Type := mk {
  distribution_dict : gmap string Py.dref;
  p_thresh : Q * Q;
  parameters : list Py.pyval;
  sample_idx : option Z;
  distributions : list Py.dref;
  do_boundary_sample : bool
}.

Definition set_sample_idx (self : t) (i : option Z) : t :=
  mk (distribution_dict self) (p_thresh self) (parameters self) i
     (distributions self) (do_boundary_sample self).

Definition set_do_boundary_sample (self : t) (b : bool) : t :=
  mk (distribution_dict self) (p_thresh self) (parameters self)
     (sample_idx self) (distributions self) b.

Definition default_p_thresh : Q * Q := (0, 10).

(** ["dist_{}".format(ph_val)] *)
Definition placeholder (ph_val : Z) : string := "dist_" +:+ pretty ph_val.

(** One turn of the loop of [construct_dict]; [ph_val] is not changed. *)
Definition register (ph_val : Z) (distribution_dict : gmap string Py.dref)
    (dist : Py.dref) : Py.M store (gmap string Py.dref) :=
  x <- read_dist dist ;;
  (if bool_decide (is_Some (distribution_dict !! ADRDist.name x)) then
     set_name dist (placeholder ph_val) ;;;
     ADRUniform.update_boundary_names dist
   else Py.ret tt) ;;;
  x <- read_dist dist ;;
  Py.ret (<[ADRDist.name x := dist]> distribution_dict).

Fixpoint construct_dict_from (ph_val : Z)
    (distribution_dict : gmap string Py.dref) (distributions : list Py.dref)
  : Py.M store (gmap string Py.dref) :=
  match distributions with
  | [] => Py.ret distribution_dict
  | dist :: rest =>
      distribution_dict <- register ph_val distribution_dict dist ;;
      construct_dict_from ph_val distribution_dict rest
  end.

Definition construct_dict (distributions : list Py.dref)
  : Py.M store (gmap string Py.dref) :=
  let ph_val := 0%Z in
  construct_dict_from ph_val ∅ distributions.

(** The loop [self.parameters += dist.get_parameters()]. *)
Fixpoint collect_parameters (acc : list Py.pyval) (distributions : list Py.dref)
  : Py.M store (list Py.pyval) :=
  match distributions with
  | [] => Py.ret acc
  | dist :: rest =>
      v <- get_parameters dist ;;
      items <- Py.lift (Py.iter v) ;;
      collect_parameters (acc ++ items) rest
  end.

Definition init (distributions : list Py.dref) (p_thresh : Q * Q)
  : Py.M store t :=
  distribution_dict <- construct_dict distributions ;;
  parameters <- collect_parameters [] distributions ;;
  Py.ret (mk distribution_dict p_thresh parameters None distributions true).

(** The methods below mutate the engine as well as the store. *)
Definition state : Type := t * store.

Definition on_store {A} (c : Py.M store A) : Py.M state A :=
  fun s => let (r, h) := c (snd s) in (r, (fst s, h)).

Definition self_ : Py.M state t := fun s => (Py.Ok (fst s), s).

Definition assign (f : t -> t) : Py.M state unit :=
  Py.modify (fun s => (f (fst s), snd s)).

(** [param.<method>] where [param] is an element of [self.parameters]. *)
Definition as_param (attr : string) (v : Py.pyval) : Py.M state Py.pref :=
  match v with
  | Py.VParam r => Py.ret r
  | _ => Py.raise (Py.AttributeError attr)
  end.

Definition episode_sample `{Exp} : Py.M state (list Q) :=
  self <- self_ ;;
  Py.map_each (distributions self)
              (fun dist => on_store (Dispatch.episode_sample dist)).

(** [sample_weights / np.sum(sample_weights)]: [None] when the sum is 0
    and the quotients are [nan] or infinite. *)
Definition normalise (sample_weights : list Q) : option (list Q) :=
  let total := Np.sum sample_weights in
  if Qeq_bool total 0 then None
  else Some (map (fun w => w / total) sample_weights).

Definition choose (n : nat) (weights_norm : option (list Q))
  : Py.M state nat :=
  match weights_norm with
  | None => Py.raise Py.ValueError
  | Some p => on_store (try_draw (Np.choice n p))
  end.

Definition boundary_sample `{Exp} : Py.M state (list Q * option Z) :=
  self <- self_ ;;
  if do_boundary_sample self then
    sample_weights <-
      Py.map_each (parameters self)
        (fun v => r <- as_param "get_boundary_sample_weight" v ;;
                  p <- on_store (read_param r) ;;
                  Py.ret (ADRParam.get_boundary_sample_weight p)) ;;
    let weights_norm := normalise sample_weights in
    idx <- choose (length (parameters self)) weights_norm ;;
    assign (fun e => set_sample_idx e (Some (Z.of_nat idx))) ;;;
    self <- self_ ;;
    v <- Py.lift (Py.getitem_opt (parameters self) (sample_idx self)) ;;
    r <- as_param "set_boundary_sample_flag" v ;;
    p <- on_store (read_param r) ;;
    on_store (write_param r (ADRParam.set_boundary_sample_flag p true)) ;;;
    lam <- episode_sample ;;
    self <- self_ ;;
    Py.ret (lam, sample_idx self)
  else
    assign (fun e => set_sample_idx e (Some 0%Z)) ;;;
    lam <- episode_sample ;;
    self <- self_ ;;
    Py.ret (lam, sample_idx self).

Definition update (performance : Q) (param_idx : option Z)
  : Py.M state unit :=
  self <- self_ ;;
  let param_idx :=
    match param_idx with
    | None => sample_idx self
    | Some i => Some i
    end in
  v <- Py.lift (Py.getitem_opt (parameters self) param_idx) ;;
  r <- as_param "update" v ;;
  p <- on_store (read_param r) ;;
  on_store (write_param r (ADRParam.update p performance (p_thresh self))).

(** [dist.phi_h.value - dist.phi_l.value]: only an [ADRUniform] has the
    two attributes. *)
Definition width (dist : Py.dref) : Py.M store Q :=
  x <- read_dist dist ;;
  match ADRDist.own x with
  | ADRDist.Uniform phi_l phi_h =>
      h <- read_param phi_h ;;
      l <- read_param phi_l ;;
      Py.ret (ADRParam.value h - ADRParam.value l)
  | _ => Py.raise (Py.AttributeError "phi_h")
  end.

Fixpoint total_width_from (total : Q) (distributions : list Py.dref)
  : Py.M store Q :=
  match distributions with
  | [] => Py.ret total
  | dist :: rest =>
      w <- width dist ;;
      total_width_from (total + w) rest
  end.

Definition total_distribution_width : Py.M state Q :=
  self <- self_ ;;
  on_store (total_width_from 0 (distributions self)).

End ADR.

(** ** Notions used in the statements *)

(** Clearing the boundary flag of a parameter. *)
Definition clear_flag (p : ADRParam.t) : ADRParam.t :=
  ADRParam.set_boundary_sample_flag p false.

(** The registry built from a list of distributions, and the names the
    distributions and the parameters have afterwards. *)
Definition registry_of (distributions : list Py.dref) (s : store)
  : option (list (string * Py.dref)) * list string * list string :=
  let (r, s') := ADR.construct_dict distributions s in
  (match r with Py.Ok m => Some (map_to_list m) | Py.Raise _ => None end,
   map ADRDist.name (dists s'), map ADRParam.name (params s')).

(** The calls on an engine other than [boundary_sample]. *)
Inductive call : Type :=
| CallUpdate (performance : Q) (param_idx : Z)
| CallEpisodeSample
| CallTotalDistributionWidth.

(** The state a call leaves, whether it returns or raises. *)
Definition after_call `{Exp} (st : ADR.state) (c : call) : ADR.state :=
  match c with
  | CallUpdate performance param_idx =>
      snd (ADR.update performance (Some param_idx) st)
  | CallEpisodeSample => snd (ADR.episode_sample st)
  | CallTotalDistributionWidth => snd (ADR.total_distribution_width st)
  end.

Definition after_calls `{Exp} (st : ADR.state) (calls : list call)
  : ADR.state :=
  fold_left after_call calls st.

(** A computation that leaves the engine record as it found it. *)
Definition keeps_engine {A : Type} (c : Py.M ADR.state A) : Prop :=
  forall st, fst (snd (c st)) = fst st.

(** A computation whose returned index is the [sample_idx] it started
    with. *)
Definition returns_sample_idx (c : Py.M ADR.state (list Q * option Z))
  : Prop :=
  forall st lam io st',
    c st = (Py.Ok (lam, io), st') -> io = ADR.sample_idx (fst st).

(** [v] is a parameter of the store with boundary-sample weight [w]. *)
Definition has_weight (s : store) (v : Py.pyval) (w : Q) : Prop :=
  exists r p, v = Py.VParam r /\ params s !! r = Some p /\
              w = ADRParam.boundary_sample_weight p.

(** ** Concrete objects used in the examples *)

(** Capacity 3, delta 0.02, value 1, free bounds. *)
Definition three_slot_param : ADRParam.t :=
  ADRParam.init 1 ADRParam.default_val_bound (2 # 100) 3 1 EmptyString.

(** Value 5 within the bounds [0, 10], capacity 1, delta 7. *)
Definition bounded_param : ADRParam.t :=
  ADRParam.init 5 (Some 0%Q, Some 10%Q) 7 1 1 EmptyString.


(** An [np.exp] for the examples, and a generator whose uniform draws are
    all 1/2 and whose normal draws are all 0. *)
Definition unit_exp : Exp := fun _ => 1%Q.

Definition half_random : Np.RandomState :=
  Np.mkRandomState (fun _ => 1 # 2) (fun _ => 0%Q) 0 0.

Definition empty_store : store := mkStore [] [] half_random.

(** The store after [ADRUniform.fixed_value(5, "joint")] twice, and after
    three times. *)
Definition two_joint : store :=
  snd ((ADRUniform.fixed_value 5 "joint" ;;;
        ADRUniform.fixed_value 5 "joint") empty_store).

Definition three_joint : store :=
  snd ((ADRUniform.fixed_value 5 "joint" ;;;
        ADRUniform.fixed_value 5 "joint" ;;;
        ADRUniform.fixed_value 5 "joint") empty_store).


(** Three uniform distributions and an action-noise object over them, laid
    out as the constructor is documented to leave it. *)
Definition noise_store : store :=
  mkStore (params three_joint)
          (dists three_joint ++
           [ADRDist.mk None
              (Py.VList [Py.VParam 0%nat; Py.VParam 1%nat; Py.VParam 2%nat;
                         Py.VParam 3%nat; Py.VParam 4%nat; Py.VParam 5%nat])
              EmptyString (ADRDist.ActionNoise 2 0 1 2)])
          (random three_joint).

(** The engine over the three distributions of [three_joint]. *)
Definition joint_engine : ADR.state :=
  match ADR.init [0; 1; 2]%nat ADR.default_p_thresh three_joint with
  | (Py.Ok e, s) => (e, s)
  | (Py.Raise _, s) =>
      (ADR.mk ∅ ADR.default_p_thresh [] None [] true, s)
  end.

(** Two uniform distributions whose four parameters weigh 1, 0, 3, 0, and
    the engine over them. *)
Definition weighted_store : store :=
  snd ((ADRUniform.init 0 1 "a" ;;; ADRUniform.init 2 3 "b")
         (mkStore
            [ADRParam.init 1 (None, Some 2%Q) (2 # 100) 240 1 EmptyString;
             ADRParam.init 3 (Some 2%Q, None) (2 # 100) 240 0 EmptyString;
             ADRParam.init 5 (None, Some 6%Q) (2 # 100) 240 3 EmptyString;
             ADRParam.init 7 (Some 6%Q, None) (2 # 100) 240 0 EmptyString]
            [] half_random)).

Definition weighted_engine : ADR.state :=
  match ADR.init [0; 1]%nat ADR.default_p_thresh weighted_store with
  | (Py.Ok e, s) => (e, s)
  | (Py.Raise _, s) =>
      (ADR.mk ∅ ADR.default_p_thresh [] None [] true, s)
  end.

(** ** Relations between stores *)

(** What sampling may do to a parameter: clear its flag and nothing else. *)
Definition param_sampled (p p' : ADRParam.t) : Prop :=
  clear_flag p' = clear_flag p /\
  (ADRParam.boundary_sample_flag p' = true ->
   ADRParam.boundary_sample_flag p = true).

(** What is left of a parameter when the flag is set aside. *)
Definition param_kept (p p' : ADRParam.t) : Prop :=
  clear_flag p' = clear_flag p.

(** What sampling may do to a distribution: replace its last sample. *)
Definition dist_sampled (x x' : ADRDist.t) : Prop :=
  ADRDist.parameters x' = ADRDist.parameters x /\
  ADRDist.name x' = ADRDist.name x /\
  ADRDist.own x' = ADRDist.own x.

(** The generator has moved on along the same two streams. *)
Definition generator_advanced (r r' : Np.RandomState) : Prop :=
  Np.uniforms r' = Np.uniforms r /\ Np.normals r' = Np.normals r /\
  (Np.u_next r <= Np.u_next r')%nat /\ (Np.n_next r <= Np.n_next r')%nat.

Definition sampled (s s' : store) : Prop :=
  Forall2 param_sampled (params s) (params s') /\
  Forall2 dist_sampled (dists s) (dists s') /\
  generator_advanced (random s) (random s').

(** The parameters are as they were, flags set aside, and the
    distributions are as they were, last samples set aside. *)
Definition store_kept (s s' : store) : Prop :=
  Forall2 param_kept (params s) (params s') /\
  Forall2 dist_sampled (dists s) (dists s').

(** A computation whose final state, returned or raised in, is related to
    its initial state. *)
Definition preserves {S A : Type} (R : S -> S -> Prop) (c : Py.M S A)
  : Prop :=
  forall s, R s (snd (c s)).

(** The same relation on the store of an engine state. *)
Definition on_heap (R : store -> store -> Prop) (st st' : ADR.state) : Prop :=
  R (snd st) (snd st').

(** The parameter at [r] has bounds [b] and a value within them. *)
Definition bounded_at (r : Py.pref) (b : option Q * option Q) (s : store)
  : Prop :=
  exists p, params s !! r = Some p /\ ADRParam.val_bound p = b /\
            ADRParam.within (ADRParam.value p) b.

(** The relation "if the parameter at [r] was within [b], it still is". *)
Definition stays_bounded (r : Py.pref) (b : option Q * option Q)
    (s s' : store) : Prop :=
  bounded_at r b s -> bounded_at r b s'.

(** What a call on an engine may do to a parameter: its configuration is
    kept, a value within the bounds stays within them, and with a zero
    delta such a value stays the same number. *)
Definition param_stepped (p p' : ADRParam.t) : Prop :=
  ADRParam.delta p' = ADRParam.delta p /\
  ADRParam.pq_size p' = ADRParam.pq_size p /\
  ADRParam.val_bound p' = ADRParam.val_bound p /\
  ADRParam.boundary_sample_weight p' = ADRParam.boundary_sample_weight p /\
  ADRParam.name p' = ADRParam.name p /\
  (ADRParam.within (ADRParam.value p) (ADRParam.val_bound p) ->
   ADRParam.within (ADRParam.value p') (ADRParam.val_bound p)) /\
  (ADRParam.delta p == 0 ->
   ADRParam.within (ADRParam.value p) (ADRParam.val_bound p) ->
   ADRParam.value p' == ADRParam.value p)%Q.

Definition engine_stepped (s s' : store) : Prop :=
  Forall2 param_stepped (params s) (params s') /\
  Forall2 dist_sampled (dists s) (dists s').


(** A computation whose returned index is the [sample_idx] it ends
    with. *)
Definition returns_final_idx (c : Py.M ADR.state (list Q * option Z))
  : Prop :=
  forall st lam io st',
    c st = (Py.Ok (lam, io), st') -> io = ADR.sample_idx (fst st').


(** The distribution at [d] is a uniform distribution over its two
    parameters, whose values are [lo] and [hi]. *)
Definition uniform_at (s : store) (d : Py.dref) (lo hi : Q) : Prop :=
  exists x l h pl ph,
    dists s !! d = Some x /\
    ADRDist.own x = ADRDist.Uniform l h /\
    ADRDist.parameters x = Py.VList [Py.VParam l; Py.VParam h] /\
    params s !! l = Some pl /\ params s !! h = Some ph /\
    ADRParam.value pl = lo /\ ADRParam.value ph = hi.


(** What [construct_dict] may do to a parameter and to a distribution:
    give it another name. *)
Definition param_renamed (p p' : ADRParam.t) : Prop :=
  ADRParam.set_name p' EmptyString = ADRParam.set_name p EmptyString.

Definition dist_renamed (x x' : ADRDist.t) : Prop :=
  ADRDist.last_sample x' = ADRDist.last_sample x /\
  ADRDist.parameters x' = ADRDist.parameters x /\
  ADRDist.own x' = ADRDist.own x.

Definition renamed (s s' : store) : Prop :=
  Forall2 param_renamed (params s) (params s') /\
  Forall2 dist_renamed (dists s) (dists s') /\
  random s' = random s.


(** The distribution at [d] has the two bounds of a uniform distribution,
    and [w] is the value of the upper one minus the value of the lower. *)
Definition width_at (s : store) (d : Py.dref) (w : Q) : Prop :=
  exists x l h pl ph,
    dists s !! d = Some x /\
    ADRDist.own x = ADRDist.Uniform l h /\
    params s !! l = Some pl /\ params s !! h = Some ph /\
    w = (ADRParam.value ph - ADRParam.value pl)%Q.


(** One draw per range, taken from the stream [us] from position [next]
    on and scaled into its range as [np.random.uniform] does. *)
Fixpoint scaled_draws (us : nat -> Q) (next : nat) (ranges : list (Q * Q))
  : list Q :=
  match ranges with
  | [] => []
  | r :: rest =>
      (fst r + (snd r - fst r) * us next)%Q :: scaled_draws us (S next) rest
  end.


(** Every call on an engine. *)
Inductive engine_call : Type :=
| EUpdate (performance : Q) (param_idx : option Z)
| EEpisodeSample
| EBoundarySample
| ETotalDistributionWidth.

Definition after_engine_call `{Exp} (st : ADR.state) (c : engine_call)
  : ADR.state :=
  match c with
  | EUpdate performance param_idx => snd (ADR.update performance param_idx st)
  | EEpisodeSample => snd (ADR.episode_sample st)
  | EBoundarySample => snd (ADR.boundary_sample st)
  | ETotalDistributionWidth => snd (ADR.total_distribution_width st)
  end.

Definition after_engine_calls `{Exp} (st : ADR.state)
    (calls : list engine_call) : ADR.state :=
  fold_left after_engine_call calls st.


(** * Properties *)

(** ** Parameters *)

Section ParamFacts.
Import ADRParam.
Local Open Scope Q_scope.


Lemma clip_within (x : Q) (lo hi : option Q) :
  (forall l h, lo = Some l -> hi = Some h -> l <= h) ->
  within (Np.clip x lo hi) (lo, hi).
Proof.
  intros Hlh. unfold within, Np.clip, Np.maximum, Np.minimum; simpl.
  destruct lo as [l|], hi as [h|]; split; try exact I.
  - apply Q.min_glb; [apply Q.le_max_r | now apply Hlh].
  - apply Q.le_min_r.
  - apply Q.le_max_r.
  - apply Q.le_min_r.
Qed.

Lemma within_ordered (v : Q) (lo hi : option Q) :
  within v (lo, hi) -> forall l h, lo = Some l -> hi = Some h -> l <= h.
Proof.
  unfold within; simpl. intros [Hl Hh] l h -> ->.
  now apply Qle_trans with v.
Qed.

Lemma update_below (self : t) (p_val : Q) (p_thresh : Q * Q) :
  pq_full self p_val = false ->
  update self p_val p_thresh = set_pq self (pq self ++ [p_val]).
Proof. unfold pq_full, update; simpl. now intros ->. Qed.

Lemma update_full (self : t) (p_val : Q) (p_thresh : Q * Q) :
  pq_full self p_val = true ->
  update self p_val p_thresh =
  set_value (set_pq self [])
    (Np.clip (decide_value self (Np.mean (pq self ++ [p_val])) p_thresh)
             (at_bound (val_bound self) LOWER)
             (at_bound (val_bound self) UPPER)).
Proof. unfold pq_full, update; simpl. now intros ->. Qed.

Lemma update_val_bound (self : t) (p_val : Q) (p_thresh : Q * Q) :
  val_bound (update self p_val p_thresh) = val_bound self.
Proof.
  destruct (pq_full self p_val) eqn:E;
    [rewrite update_full | rewrite update_below]; auto.
Qed.

Lemma updates_val_bound (calls : list (Q * (Q * Q))) (self : t) :
  val_bound (updates self calls) = val_bound self.
Proof.
  revert self. induction calls as [|c calls IH]; intros self; simpl; auto.
  unfold updates in *; simpl. now rewrite IH, update_val_bound.
Qed.

Lemma feed_app (self : t) (xs ys : list Q) (p_thresh : Q * Q) :
  feed self (xs ++ ys) p_thresh = feed (feed self xs p_thresh) ys p_thresh.
Proof. unfold feed. now rewrite fold_left_app. Qed.

Lemma feed_below (p_vals : list Q) (self : t) (p_thresh : Q * Q) :
  (Z.of_nat (length (pq self ++ p_vals)) < pq_size self)%Z ->
  feed self p_vals p_thresh = set_pq self (pq self ++ p_vals).
Proof.
  revert self. induction p_vals as [|v vs IH]; intros self Hlen.
  - simpl. rewrite app_nil_r. now destruct self.
  - change (feed self (v :: vs) p_thresh)
      with (feed (update self v p_thresh) vs p_thresh).
    rewrite !length_app in Hlen; simpl in Hlen.
    rewrite update_below.
    + rewrite IH; simpl.
      * now rewrite <- app_assoc.
      * rewrite !length_app; simpl. lia.
    + unfold pq_full. rewrite length_app; simpl. apply Z.leb_gt. lia.
Qed.

Lemma feed_fill (p_vals : list Q) (self : t) (p_thresh : Q * Q) :
  (1 <= pq_size self)%Z ->
  pq self = [] ->
  Z.of_nat (length p_vals) = pq_size self ->
  feed self p_vals p_thresh =
  set_value (set_pq self [])
    (Np.clip (decide_value self (Np.mean p_vals) p_thresh)
             (at_bound (val_bound self) LOWER)
             (at_bound (val_bound self) UPPER)).
Proof.
  intros Hcap Hpq Hlen.
  destruct (exists_last (l := p_vals)) as (vs & v & ->).
  { intros ->. simpl in Hlen. lia. }
  rewrite length_app in Hlen; simpl in Hlen.
  rewrite feed_app, (feed_below vs self) by (rewrite Hpq; simpl; lia).
  rewrite Hpq; simpl. unfold feed; simpl.
  rewrite update_full.
  - now destruct self.
  - unfold pq_full; simpl. rewrite length_app; simpl. apply Z.leb_le. lia.
Qed.



(** C2. A parameter whose value starts within its bounds keeps it within
    them through every run of [update] calls, whatever the performance
    values and thresholds; the bounds themselves never change, and a call
    either leaves the value untouched or stores a clamped value. *)
Theorem value_stays_within_bounds
    (self : t) (calls : list (Q * (Q * Q))) :
  within (value self) (val_bound self) ->
  within (value (updates self calls)) (val_bound self) /\
  val_bound (updates self calls) = val_bound self /\
  (forall p_val p_thresh,
      value (update self p_val p_thresh) = value self \/
      exists x, value (update self p_val p_thresh) =
                Np.clip x (fst (val_bound self)) (snd (val_bound self))).
Proof.
  intros Hin. split; [|split].
  - revert self Hin. induction calls as [|[v th] calls IH]; intros self Hin.
    + exact Hin.
    + change (updates self ((v, th) :: calls))
        with (updates (update self v th) calls).
      rewrite <- (update_val_bound self v th). apply IH.
      rewrite update_val_bound.
      destruct (pq_full self v) eqn:E.
      * rewrite update_full by exact E. simpl.
        destruct (val_bound self) as [lo hi]. simpl.
        apply clip_within. now apply within_ordered with (value self).
      * rewrite update_below by exact E. exact Hin.
  - apply updates_val_bound.
  - intros p_val p_thresh. destruct (pq_full self p_val) eqn:E.
    + right. rewrite update_full by exact E. simpl. eauto.
    + left. now rewrite update_below by exact E.
Qed.

Lemma value_stays_within_bounds_witness :
  within (value bounded_param) (val_bound bounded_param) /\
  within (value (updates bounded_param [(20, (0, 10)); (-3, (0, 10))]))
         (val_bound bounded_param).
Proof.
  assert (Hin : within (value bounded_param) (val_bound bounded_param)).
  { split; simpl; unfold Qle; simpl; lia. }
  split; [exact Hin|].
  exact (proj1 (value_stays_within_bounds bounded_param
                  [(20, (0, 10)); (-3, (0, 10))] Hin)).
Defined.




(** C5. The value of a parameter made by [fixed_boundary] is the same
    number after any run of [update] calls, whatever the performance
    values and the thresholds. *)
Theorem fixed_boundary_value_unchanged
    (val : Q) (calls : list (Q * (Q * Q))) :
  value (updates (fixed_boundary val) calls) == val /\
  delta (fixed_boundary val) = 0 /\
  pq_size (fixed_boundary val) = 0%Z /\
  boundary_sample_weight (fixed_boundary val) = 0 /\
  val_bound (fixed_boundary val) = (None, None).
Proof.
  split; [|repeat split].
  assert (Hinv : forall p : t,
             delta p = 0 -> val_bound p = (None, None) -> value p == val ->
             value (updates p calls) == val).
  { induction calls as [|[v th] calls IH]; intros p Hd Hb Hv; [exact Hv|].
    change (updates p ((v, th) :: calls)) with (updates (update p v th) calls).
    assert (Hstep : delta (update p v th) = 0 /\
                    val_bound (update p v th) = (None, None) /\
                    value (update p v th) == val).
    { destruct (pq_full p v) eqn:E;
        [rewrite update_full by exact E | rewrite update_below by exact E];
        simpl; repeat split; auto.
      rewrite Hb; simpl. unfold decide_value. rewrite Hd.
      destruct (Np.Qltb _ _); [|destruct (Np.Qltb _ _)]; rewrite Hv; ring. }
    destruct Hstep as (H1 & H2 & H3). now apply IH. }
  apply Hinv; reflexivity.
Qed.

End ParamFacts.

(** ** The uniform distribution *)

Section UniformFacts.
Context `{Exp}.
Import Heap.
Local Open Scope Q_scope.

Lemma clear_flag_id (p : ADRParam.t) :
  ADRParam.boundary_sample_flag p = false -> clear_flag p = p.
Proof. destruct p; simpl; intros ->; reflexivity. Qed.

Lemma set_last_sample_id (x : ADRDist.t) :
  ADRDist.set_last_sample x (ADRDist.last_sample x) = x.
Proof. now destruct x. Qed.

Lemma consume_flag_spec (d : Py.dref) (r : Py.pref) (s : store)
    (p : ADRParam.t) (self : ADRDist.t) :
  params s !! r = Some p ->
  dists s !! d = Some self ->
  exists ls,
    ADRUniform.consume_flag d (Py.VParam r) s =
    (Py.Ok tt,
     mkStore (<[r := clear_flag p]> (params s))
             (<[d := ADRDist.set_last_sample self ls]> (dists s))
             (random s)).
Proof.
  intros Hp Hd. unfold ADRUniform.consume_flag, Py.mbind, read_param.
  rewrite Hp. unfold ADRParam.get_boundary_sample_flag.
  destruct (ADRParam.boundary_sample_flag p) eqn:Hf.
  - exists (Some (ADRParam.value p)).
    unfold write_param, Py.modify, set_last_sample, Py.mbind, read_dist,
      write_dist, Py.modify; simpl.
    rewrite list_lookup_insert_eq by (eapply lookup_lt_Some; eauto).
    simpl. rewrite Hd. reflexivity.
  - exists (ADRDist.last_sample self). unfold Py.ret.
    rewrite clear_flag_id, set_last_sample_id, !list_insert_id by auto.
    now destruct s.
Qed.

Lemma mbind_ok {S A B : Type} (c : Py.M S A) (k : A -> Py.M S B)
    (s s' : S) (a : A) :
  c s = (Py.Ok a, s') -> Py.mbind c k s = k a s'.
Proof. unfold Py.mbind. now intros ->. Qed.

Lemma mbind_assoc {S A B C : Type} (c : Py.M S A) (k1 : A -> Py.M S B)
    (k2 : B -> Py.M S C) (s : S) :
  Py.mbind (Py.mbind c k1) k2 s = Py.mbind c (fun a => Py.mbind (k1 a) k2) s.
Proof. unfold Py.mbind. now destruct (c s) as [[a|e] s']. Qed.

Lemma mbind_raise {S A B : Type} (c : Py.M S A) (k : A -> Py.M S B)
    (s s' : S) (e : Py.exn) :
  c s = (Py.Raise e, s') -> Py.mbind c k s = (Py.Raise e, s').
Proof. unfold Py.mbind. now intros ->. Qed.

Lemma read_param_ok (r : Py.pref) (s : store) (p : ADRParam.t) :
  params s !! r = Some p -> read_param r s = (Py.Ok p, s).
Proof. unfold read_param. now intros ->. Qed.

Lemma read_dist_ok (d : Py.dref) (s : store) (x : ADRDist.t) :
  dists s !! d = Some x -> read_dist d s = (Py.Ok x, s).
Proof. unfold read_dist. now intros ->. Qed.

Lemma episode_sample_at_S (depth : nat) (d : Py.dref) (s : store)
    (self : ADRDist.t) :
  dists s !! d = Some self ->
  Dispatch.episode_sample_at (S depth) d s =
  match ADRDist.own self with
  | ADRDist.Base => Py.raise Py.NotImplementedError s
  | ADRDist.Uniform phi_l phi_h => ADRUniform.episode_sample d phi_l phi_h s
  | ADRDist.AdditiveGaussian x_0 lam_i lam_j alpha =>
      ADRAdditiveGaussian.episode_sample
        (Dispatch.episode_sample_at depth) d x_0 lam_i lam_j alpha s
  | ADRDist.UnbiasedAdditiveGaussian x_0 lam_i alpha =>
      ADRUnbiasedAdditiveGaussian.episode_sample
        (Dispatch.episode_sample_at depth) d x_0 lam_i alpha s
  | ADRDist.Multiplicative x_0 lam_i lam_j alpha =>
      ADRMultiplicative.episode_sample
        (Dispatch.episode_sample_at depth) d x_0 lam_i lam_j alpha s
  | ADRDist.ActionNoise a_0 lam_i lam_j lam_k =>
      ADRActionNoise.episode_sample
        (Dispatch.episode_sample_at depth) d a_0 lam_i lam_j lam_k s
  end.
Proof.
  intros Hd.
  change (Dispatch.episode_sample_at (S depth) d s) with
    (Py.mbind (read_dist d)
       (fun self =>
          match ADRDist.own self with
          | ADRDist.Base => Py.raise Py.NotImplementedError
          | ADRDist.Uniform phi_l phi_h =>
              ADRUniform.episode_sample d phi_l phi_h
          | ADRDist.AdditiveGaussian x_0 lam_i lam_j alpha =>
              ADRAdditiveGaussian.episode_sample
                (Dispatch.episode_sample_at depth) d x_0 lam_i lam_j alpha
          | ADRDist.UnbiasedAdditiveGaussian x_0 lam_i alpha =>
              ADRUnbiasedAdditiveGaussian.episode_sample
                (Dispatch.episode_sample_at depth) d x_0 lam_i alpha
          | ADRDist.Multiplicative x_0 lam_i lam_j alpha =>
              ADRMultiplicative.episode_sample
                (Dispatch.episode_sample_at depth) d x_0 lam_i lam_j alpha
          | ADRDist.ActionNoise a_0 lam_i lam_j lam_k =>
              ADRActionNoise.episode_sample
                (Dispatch.episode_sample_at depth) d a_0 lam_i lam_j lam_k
          end) s).
  rewrite (mbind_ok _ _ _ _ _ (read_dist_ok _ _ _ Hd)).
  destruct (ADRDist.own self); reflexivity.
Qed.



End UniformFacts.

Section UniformExample.
Local Open Scope Q_scope.


End UniformExample.

(** ** The registry of the engine *)

(** C6, on the code. Two distributions named "joint" are registered under
    "joint" and "dist_0".  With three of them the placeholder is "dist_0"
    again, because [ph_val] stays 0: the third distribution takes the key
    of the second, the registry has two entries for three distributions and
    the second and third distributions and their parameters carry the same
    names. *)
Theorem construct_dict_reuses_placeholder :
  registry_of [0; 1]%nat two_joint =
    (Some [("joint", 0%nat); ("dist_0", 1%nat)],
     ["joint"; "dist_0"],
     ["joint_l"; "joint_r"; "dist_0_l"; "dist_0_r"]) /\
  registry_of [0; 1; 2]%nat three_joint =
    (Some [("joint", 0%nat); ("dist_0", 2%nat)],
     ["joint"; "dist_0"; "dist_0"],
     ["joint_l"; "joint_r"; "dist_0_l"; "dist_0_r"; "dist_0_l"; "dist_0_r"]).
Proof. split; vm_compute; reflexivity. Qed.

(** ** Construction of the compound distributions *)

Section ConstructorFacts.
Import Heap.
Local Open Scope Q_scope.

Lemma getattr_alpha_unassigned :
  ADRDist.getattr (ADRDist.init_attrs ++ ["x_0"; "lam_i"; "lam_j"]) "alpha"
  = Py.Raise (Py.AttributeError "alpha").
Proof. vm_compute. reflexivity. Qed.

Lemma add_method_raises (a : Py.pyval) (d : Py.dref) (m : string) :
  Py.add a (Py.VMethod d m) = Py.Raise Py.TypeError.
Proof. destruct a; reflexivity. Qed.

Lemma get_parameters_cases (d : Py.dref) (s : store) :
  (exists v, get_parameters d s = (Py.Ok v, s)) \/
  get_parameters d s = (Py.Raise Py.InvalidAddress, s).
Proof.
  unfold get_parameters, Py.mbind, read_dist.
  destruct (dists s !! d); [left; eexists; reflexivity | now right].
Qed.

Lemma unbiased_constructor_ok
    (x_0 alpha : Q) (lam_i : Py.dref) (s : store) (x : ADRDist.t) :
  dists s !! lam_i = Some x ->
  ADRUnbiasedAdditiveGaussian.init x_0 lam_i alpha s
  = (Py.Ok (length (dists s)),
     mkStore (params s)
             (dists s ++
              [ADRDist.mk None (ADRDist.parameters x) EmptyString
                 (ADRDist.UnbiasedAdditiveGaussian x_0 lam_i alpha)])
             (random s)).
Proof.
  intros Hx. unfold ADRUnbiasedAdditiveGaussian.init, get_parameters.
  now rewrite mbind_assoc, (mbind_ok _ _ _ _ _ (read_dist_ok _ _ _ Hx)).
Qed.

(** C7, on the code. Three of the four constructors raise on every input:
    [ADRAdditiveGaussian] reads [self.alpha] before anything assigned it,
    [ADRMultiplicative] and [ADRActionNoise] add the list of [lam_i] to
    the method [get_parameters] of [lam_j] instead of to its result; on
    three uniform distributions the error is a [TypeError].  Only
    [ADRUnbiasedAdditiveGaussian] builds an object, and its parameters are
    those of its child. *)
Theorem compound_constructors_raise
    (x_0 alpha : Q) (lam_i lam_j lam_k : Py.dref) (s : store) :
  ADRAdditiveGaussian.init x_0 lam_i lam_j alpha s
    = (Py.Raise (Py.AttributeError "alpha"), s) /\
  (exists e, ADRMultiplicative.init x_0 lam_i lam_j alpha s
             = (Py.Raise e, s)) /\
  (exists e, ADRActionNoise.init x_0 lam_i lam_j lam_k s
             = (Py.Raise e, s)) /\
  ADRMultiplicative.init 1 0%nat 1%nat (1 # 100) three_joint
    = (Py.Raise Py.TypeError, three_joint) /\
  ADRActionNoise.init 1 0%nat 1%nat 2%nat three_joint
    = (Py.Raise Py.TypeError, three_joint) /\
  (exists s',
      ADRUnbiasedAdditiveGaussian.init 1 0%nat (1 # 100) three_joint
      = (Py.Ok 3%nat, s') /\
      ADRDist.parameters <$> dists s' !! 3%nat
      = Some (Py.VList [Py.VParam 0%nat; Py.VParam 1%nat])).
Proof.
  split; [|split; [|split; [|split; [|split]]]].
  - unfold ADRAdditiveGaussian.init.
    rewrite getattr_alpha_unassigned. reflexivity.
  - unfold ADRMultiplicative.init.
    destruct (get_parameters_cases lam_i s) as [[v E]|E].
    + rewrite (mbind_ok _ _ _ _ _ E), add_method_raises. eauto.
    + rewrite (mbind_raise _ _ _ _ _ E). eauto.
  - unfold ADRActionNoise.init.
    destruct (get_parameters_cases lam_i s) as [[v E]|E].
    + rewrite (mbind_ok _ _ _ _ _ E), add_method_raises. eauto.
    + rewrite (mbind_raise _ _ _ _ _ E). eauto.
  - vm_compute. reflexivity.
  - vm_compute. reflexivity.
  - eexists. split; vm_compute; reflexivity.
Qed.

End ConstructorFacts.

(** ** Action noise *)

Section ActionNoiseFacts.
Context `{Exp}.
Import Heap.
Local Open Scope Q_scope.

Lemma step_sample_raises (sample : Py.dref -> Py.M store Q) (d : Py.dref)
    (a_0 : Q) (lam_i lam_j lam_k : Py.dref) (s : store) :
  ADRActionNoise.step_sample sample d a_0 lam_i lam_j lam_k s
  = (Py.Raise (Py.NameError "a_0"), s).
Proof. reflexivity. Qed.

(** C8, on the code. [step_sample] raises [NameError] for the unbound
    name [a_0] on every call, before any draw, so no step-level sample is
    ever returned; [episode_sample] therefore never returns either.  On an
    action-noise object over three uniform distributions, [episode_sample]
    samples [lam_i] and [lam_j] (two uniform draws, both last samples set),
    leaves [lam_k] unsampled and raises. *)
Theorem action_noise_sampling_raises
    (sample : Py.dref -> Py.M store Q) (d : Py.dref) (a_0 : Q)
    (lam_i lam_j lam_k : Py.dref) (s : store) :
  ADRActionNoise.step_sample sample d a_0 lam_i lam_j lam_k s
    = (Py.Raise (Py.NameError "a_0"), s) /\
  (exists e s',
      ADRActionNoise.episode_sample sample d a_0 lam_i lam_j lam_k s
      = (Py.Raise e, s')) /\
  Dispatch.step_sample 3%nat noise_store
    = (Py.Raise (Py.NameError "a_0"), noise_store) /\
  (exists s',
      Dispatch.episode_sample 3%nat noise_store
      = (Py.Raise (Py.NameError "a_0"), s') /\
      map ADRDist.last_sample (dists s')
      = [Some (5 + (5 - 5) * (1 # 2)); Some (5 + (5 - 5) * (1 # 2));
         None; None] /\
      Np.u_next (random s') = 2%nat /\
      Np.n_next (random s') = 0%nat).
Proof.
  split; [apply step_sample_raises|]. split; [|split].
  - unfold ADRActionNoise.episode_sample.
    destruct (sample lam_i s) as [[x|e] s1] eqn:E1.
    + rewrite (mbind_ok _ _ _ _ _ E1).
      destruct (sample lam_j s1) as [[y|e] s2] eqn:E2.
      * rewrite (mbind_ok _ _ _ _ _ E2), step_sample_raises. eauto.
      * rewrite (mbind_raise _ _ _ _ _ E2). eauto.
    + rewrite (mbind_raise _ _ _ _ _ E1). eauto.
  - vm_compute. reflexivity.
  - eexists. split; [vm_compute; reflexivity|].
    repeat split; vm_compute; reflexivity.
Qed.

End ActionNoiseFacts.

(** ** Feedback before any boundary sample *)

Section EngineFacts.
Context `{Exp}.
Import Heap.
Local Open Scope Q_scope.

Lemma keeps_ret {A : Type} (a : A) : keeps_engine (Py.ret a).
Proof. now intros st. Qed.

Lemma keeps_raise {A : Type} (e : Py.exn) : keeps_engine (@Py.raise _ A e).
Proof. now intros st. Qed.

Lemma keeps_lift {A : Type} (r : Py.result A) : keeps_engine (Py.lift r).
Proof. now intros st. Qed.

Lemma keeps_self : keeps_engine ADR.self_.
Proof. now intros st. Qed.

Lemma keeps_on_store {A : Type} (c : Py.M store A) :
  keeps_engine (ADR.on_store c).
Proof. intros st. unfold ADR.on_store. now destruct (c (snd st)). Qed.

Lemma keeps_bind {A B : Type} (c : Py.M ADR.state A)
    (k : A -> Py.M ADR.state B) :
  keeps_engine c -> (forall a, keeps_engine (k a)) ->
  keeps_engine (Py.mbind c k).
Proof.
  intros Hc Hk st. unfold Py.mbind. specialize (Hc st).
  destruct (c st) as [[a|e] st1]; simpl in *; [|exact Hc].
  now rewrite Hk.
Qed.

Lemma keeps_as_param (attr : string) (v : Py.pyval) :
  keeps_engine (ADR.as_param attr v).
Proof. destruct v; now intros st. Qed.

Lemma keeps_map_each {A B : Type} (l : list A)
    (body : A -> Py.M ADR.state B) :
  (forall a, keeps_engine (body a)) -> keeps_engine (Py.map_each l body).
Proof.
  intros Hb. induction l as [|a l IH]; simpl.
  - apply keeps_ret.
  - apply keeps_bind; [apply Hb|]. intros b.
    apply keeps_bind; [exact IH|]. intros bs. apply keeps_ret.
Qed.

Lemma keeps_update (performance : Q) (param_idx : option Z) :
  keeps_engine (ADR.update performance param_idx).
Proof.
  unfold ADR.update.
  apply keeps_bind; [apply keeps_self|]. intros e.
  apply keeps_bind; [apply keeps_lift|]. intros v.
  apply keeps_bind; [apply keeps_as_param|]. intros r.
  apply keeps_bind; [apply keeps_on_store|]. intros p.
  apply keeps_on_store.
Qed.

Lemma keeps_episode_sample : keeps_engine ADR.episode_sample.
Proof.
  unfold ADR.episode_sample.
  apply keeps_bind; [apply keeps_self|]. intros e.
  apply keeps_map_each. intros d. apply keeps_on_store.
Qed.

Lemma keeps_total_distribution_width :
  keeps_engine ADR.total_distribution_width.
Proof.
  unfold ADR.total_distribution_width.
  apply keeps_bind; [apply keeps_self|]. intros e. apply keeps_on_store.
Qed.

Lemma after_calls_engine (calls : list call) (st : ADR.state) :
  fst (after_calls st calls) = fst st.
Proof.
  revert st. induction calls as [|c calls IH]; intros st; [reflexivity|].
  change (after_calls st (c :: calls))
    with (after_calls (after_call st c) calls).
  rewrite IH. destruct c; simpl.
  - apply keeps_update.
  - apply keeps_episode_sample.
  - apply keeps_total_distribution_width.
Qed.

Lemma init_sample_idx (distributions : list Py.dref) (p_thresh : Q * Q)
    (s s' : store) (e : ADR.t) :
  ADR.init distributions p_thresh s = (Py.Ok e, s') ->
  ADR.sample_idx e = None.
Proof.
  unfold ADR.init, Py.mbind, Py.ret.
  destruct (ADR.construct_dict distributions s) as [[m|x] s1];
    [|discriminate].
  destruct (ADR.collect_parameters [] distributions s1) as [[ps|x] s2];
    [|discriminate].
  intros [= <- _]. reflexivity.
Qed.

(** C10. On an engine as [__init__] leaves it, and after any calls other
    than [boundary_sample], [sample_idx] is still [None]; [update] with
    [param_idx] omitted then raises [TypeError] at the indexed lookup and
    leaves the engine, every parameter, every distribution and the
    generator as they were. *)
Theorem update_before_boundary_sample_raises
    (distributions : list Py.dref) (p_thresh : Q * Q) (s s' : store)
    (e : ADR.t) (calls : list call) (performance : Q) :
  ADR.init distributions p_thresh s = (Py.Ok e, s') ->
  ADR.sample_idx e = None /\
  ADR.sample_idx (fst (after_calls (e, s') calls)) = None /\
  ADR.update performance None (after_calls (e, s') calls)
  = (Py.Raise Py.TypeError, after_calls (e, s') calls).
Proof.
  intros Hinit.
  pose proof (init_sample_idx _ _ _ _ _ Hinit) as Hnone.
  pose proof (after_calls_engine calls (e, s')) as Hkeep. simpl in Hkeep.
  split; [exact Hnone|]. split; [now rewrite Hkeep|].
  unfold ADR.update, ADR.self_, Py.mbind at 1.
  rewrite Hkeep, Hnone. reflexivity.
Qed.

End EngineFacts.

Lemma update_before_boundary_sample_raises_witness :
  ADR.init [0; 1; 2]%nat ADR.default_p_thresh three_joint
  = (Py.Ok (fst joint_engine), snd joint_engine) /\
  @ADR.update 7 None
     (@after_calls unit_exp (fst joint_engine, snd joint_engine)
                   [CallUpdate 3 0; CallEpisodeSample])
  = (Py.Raise Py.TypeError,
     @after_calls unit_exp (fst joint_engine, snd joint_engine)
                  [CallUpdate 3 0; CallEpisodeSample]).
Proof.
  assert (Hinit : ADR.init [0; 1; 2]%nat ADR.default_p_thresh three_joint
                  = (Py.Ok (fst joint_engine), snd joint_engine))
    by (vm_compute; reflexivity).
  split; [exact Hinit|].
  exact (proj2 (proj2 (@update_before_boundary_sample_raises unit_exp
                         _ _ _ _ _ [CallUpdate 3 0; CallEpisodeSample] 7
                         Hinit))).
Defined.

(** ** Weighted choice *)

Section ChoiceFacts.
Local Open Scope Q_scope.

Lemma fold_left_Qplus (l : list Q) (a : Q) :
  fold_left Qplus l a == a + Np.sum l.
Proof.
  unfold Np.sum. revert a. induction l as [|x l IH]; intros a; simpl.
  - ring.
  - rewrite (IH (a + x)), (IH (0 + x)). ring.
Qed.

Lemma sum_cons (x : Q) (l : list Q) : Np.sum (x :: l) == x + Np.sum l.
Proof.
  unfold Np.sum at 1. simpl. rewrite fold_left_Qplus. ring.
Qed.

Lemma sum_map_div (l : list Q) (t : Q) :
  Np.sum (map (fun w => w / t) l) == Np.sum l / t.
Proof.
  induction l as [|x l IH].
  - unfold Np.sum; simpl. unfold Qdiv. ring.
  - change (map (fun w => w / t) (x :: l))
      with (x / t :: map (fun w => w / t) l).
    rewrite !sum_cons, IH. unfold Qdiv. ring.
Qed.

Lemma sum_nonneg (l : list Q) :
  Forall (fun x => 0 <= x) l -> 0 <= Np.sum l.
Proof.
  induction 1 as [|x l Hx Hl IH].
  - unfold Np.sum; simpl. lra.
  - rewrite sum_cons. lra.
Qed.

Lemma sum_positive (l : list Q) (i : nat) (x : Q) :
  Forall (fun x => 0 <= x) l -> l !! i = Some x -> 0 < x -> 0 < Np.sum l.
Proof.
  intros Hl. revert i. induction Hl as [|y l Hy Hl IH]; intros i Hi Hx.
  - discriminate.
  - rewrite sum_cons. destruct i as [|i]; simpl in Hi.
    + injection Hi as ->. pose proof (sum_nonneg l Hl). lra.
    + specialize (IH i Hi Hx). lra.
Qed.

Lemma last_cumsum_from (p : list Q) (acc d : Q) :
  p <> [] -> List.last (Np.cumsum_from acc p) d == acc + Np.sum p.
Proof.
  revert acc. induction p as [|x p IH]; intros acc Hne; [congruence|].
  destruct p as [|y p].
  - simpl. unfold Np.sum; simpl. ring.
  - change (Np.cumsum_from acc (x :: y :: p))
      with ((acc + x) :: Np.cumsum_from (acc + x) (y :: p)).
    change (List.last ((acc + x) :: Np.cumsum_from (acc + x) (y :: p)) d)
      with (List.last (Np.cumsum_from (acc + x) (y :: p)) d).
    rewrite IH by discriminate. rewrite (sum_cons x). ring.
Qed.

Lemma div_le_iff (c t u : Q) : 0 < t -> (c / t <= u <-> c <= u * t).
Proof.
  intros Ht.
  assert (E : c / t * t == c) by (field; lra).
  split; intros Hc.
  - apply (Qmult_le_r _ _ t Ht) in Hc. now rewrite E in Hc.
  - apply (Qmult_le_r _ _ t Ht). now rewrite E.
Qed.

Lemma existsb_negative (p : list Q) :
  existsb (fun x => Np.Qltb x 0) p = false <-> Forall (fun x => 0 <= x) p.
Proof.
  induction p as [|x p IH]; simpl.
  - split; auto.
  - rewrite orb_false_iff, IH. unfold Np.Qltb.
    rewrite negb_false_iff, Qle_bool_iff. split.
    + intros [Hx Hp]. now constructor.
    + intros Hp. inversion Hp; subst. now split.
Qed.

(** The inversion of the cumulative sums at [u] lands on an entry of
    positive mass. *)
Lemma searchsorted_positive (p : list Q) (acc t u : Q) :
  0 < t ->
  Forall (fun x => 0 <= x) p ->
  acc <= u * t ->
  u * t < acc + Np.sum p ->
  exists x,
    p !! Np.searchsorted_right
           (map (fun c => c / t) (Np.cumsum_from acc p)) u = Some x /\
    0 < x.
Proof.
  intros Ht Hp. revert acc.
  induction Hp as [|x p Hx Hp IH]; intros acc Hlo Hhi.
  - unfold Np.sum in Hhi; simpl in Hhi. lra.
  - rewrite sum_cons in Hhi. simpl.
    destruct (Qle_bool ((acc + x) / t) u) eqn:E.
    + apply Qle_bool_iff, div_le_iff in E; [|exact Ht].
      simpl. apply IH; lra.
    + exists x. split; [reflexivity|].
      assert (Hn : ~ (acc + x) / t <= u).
      { intros Hc. apply Qle_bool_iff in Hc. congruence. }
      rewrite div_le_iff in Hn by exact Ht. lra.
Qed.

Lemma choice_inv (n : nat) (p : list Q) (r r' : Np.RandomState) (idx : nat) :
  0 <= Np.uniforms r (Np.u_next r) ->
  Np.uniforms r (Np.u_next r) < 1 ->
  Np.choice n p r = (Py.Ok idx, r') ->
  r' = snd (Np.random_sample r) /\
  Forall (fun x => 0 <= x) p /\
  Np.sum p == 1 /\
  exists x, p !! idx = Some x /\ 0 < x.
Proof.
  intros Hu0 Hu1. unfold Np.choice.
  destruct (n =? 0)%nat eqn:En; [discriminate|].
  destruct (length p =? n)%nat eqn:El; simpl; [|discriminate].
  destruct (existsb _ p) eqn:Eneg; [discriminate|].
  destruct (Qeq_bool (Np.sum p) 1) eqn:Esum; simpl; [|discriminate].
  apply existsb_negative in Eneg. apply Qeq_bool_iff in Esum.
  intros [= <- <-].
  assert (Hne : p <> []).
  { intros ->. apply Nat.eqb_eq in El. apply Nat.eqb_neq in En.
    simpl in El. congruence. }
  pose proof (last_cumsum_from p 0 0 Hne) as Hlast.
  fold (Np.cumsum p) in Hlast.
  set (t := List.last (Np.cumsum p) 0) in *.
  assert (Ht : t == 1) by (rewrite Hlast, Esum; ring).
  repeat split; auto.
  apply searchsorted_positive; auto; rewrite ?Ht, ?Esum; lra.
Qed.

Lemma choice_ok (n : nat) (p : list Q) (r : Np.RandomState) :
  n <> 0%nat -> length p = n ->
  Forall (fun x => 0 <= x) p -> Np.sum p == 1 ->
  exists idx, Np.choice n p r = (Py.Ok idx, snd (Np.random_sample r)).
Proof.
  intros Hn Hl Hp Hs. unfold Np.choice.
  apply Nat.eqb_neq in Hn. rewrite Hn.
  apply Nat.eqb_eq in Hl. rewrite Hl. simpl.
  apply existsb_negative in Hp. rewrite Hp.
  apply Qeq_bool_iff in Hs. rewrite Hs. simpl.
  eexists. reflexivity.
Qed.

End ChoiceFacts.

(** ** Boundary sampling *)

Section BoundaryFacts.
Context `{Exp}.
Import Heap.
Local Open Scope Q_scope.

Lemma on_store_read_param (r : Py.pref) (st : ADR.state) :
  ADR.on_store (read_param r) st =
  match params (snd st) !! r with
  | Some p => (Py.Ok p, st)
  | None => (Py.Raise Py.InvalidAddress, st)
  end.
Proof.
  destruct st as [e s]. unfold ADR.on_store, read_param; simpl.
  now destruct (params s !! r).
Qed.

Lemma weights_run (ps : list Py.pyval) (st : ADR.state) :
  (exists ws,
      Py.map_each ps
        (fun v => r <- ADR.as_param "get_boundary_sample_weight" v ;;
                  p <- ADR.on_store (read_param r) ;;
                  Py.ret (ADRParam.get_boundary_sample_weight p)) st
      = (Py.Ok ws, st) /\
      Forall2 (has_weight (snd st)) ps ws) \/
  (exists e,
      Py.map_each ps
        (fun v => r <- ADR.as_param "get_boundary_sample_weight" v ;;
                  p <- ADR.on_store (read_param r) ;;
                  Py.ret (ADRParam.get_boundary_sample_weight p)) st
      = (Py.Raise e, st) /\
      ~ Forall (fun v => exists w, has_weight (snd st) v w) ps).
Proof.
  induction ps as [|v ps IH].
  - left. exists []. split; [reflexivity | constructor].
  - simpl.
    assert (Hbad : forall e,
      (r <- ADR.as_param "get_boundary_sample_weight" v ;;
       p <- ADR.on_store (read_param r) ;;
       Py.ret (ADRParam.get_boundary_sample_weight p)) st = (Py.Raise e, st) ->
      ~ (exists w, has_weight (snd st) v w) ->
      exists e',
        (y <- (r <- ADR.as_param "get_boundary_sample_weight" v ;;
               p <- ADR.on_store (read_param r) ;;
               Py.ret (ADRParam.get_boundary_sample_weight p)) ;;
         ys <- Py.map_each ps
                 (fun v => r <- ADR.as_param "get_boundary_sample_weight" v ;;
                           p <- ADR.on_store (read_param r) ;;
                           Py.ret (ADRParam.get_boundary_sample_weight p)) ;;
         Py.ret (y :: ys)) st = (Py.Raise e', st) /\
        ~ Forall (fun v => exists w, has_weight (snd st) v w) (v :: ps)).
    { intros e E Hn. exists e. split.
      - now rewrite (mbind_raise _ _ _ _ _ E).
      - intros HF. inversion HF; subst. contradiction. }
    destruct v as [|r|l|d m];
      try (right; eapply Hbad; [reflexivity|];
           intros (w & r & p & Hv & _); discriminate).
    destruct (params (snd st) !! r) as [p|] eqn:Ep.
    + assert (E : (r0 <- ADR.as_param "get_boundary_sample_weight"
                                      (Py.VParam r) ;;
                   p <- ADR.on_store (read_param r0) ;;
                   Py.ret (ADRParam.get_boundary_sample_weight p)) st
                  = (Py.Ok (ADRParam.boundary_sample_weight p), st)).
      { unfold ADR.as_param.
        rewrite (mbind_ok (Py.ret r) _ st st r eq_refl).
        unfold Py.mbind at 1. rewrite on_store_read_param, Ep. reflexivity. }
      rewrite (mbind_ok _ _ _ _ _ E).
      destruct IH as [(ws & Ews & HF)|(e & Ews & Hn)].
      * left. exists (ADRParam.boundary_sample_weight p :: ws). split.
        -- now rewrite (mbind_ok _ _ _ _ _ Ews).
        -- constructor; [|exact HF]. exists r, p. auto.
      * right. exists e. split.
        -- now rewrite (mbind_raise _ _ _ _ _ Ews).
        -- intros HF. inversion HF; subst. contradiction.
    + right. eapply Hbad.
      * unfold ADR.as_param.
        rewrite (mbind_ok (Py.ret r) _ st st r eq_refl).
        unfold Py.mbind at 1. rewrite on_store_read_param, Ep. reflexivity.
      * intros (w & r' & p & Hv & Hp & _). injection Hv as <-. congruence.
Qed.

Lemma has_weight_fun (s : store) (v : Py.pyval) (w w' : Q) :
  has_weight s v w -> has_weight s v w' -> w = w'.
Proof.
  intros (r & p & -> & Hp & ->) (r' & p' & [= <-] & Hp' & ->). congruence.
Qed.

Lemma lookup_map_div (ws : list Q) (t : Q) (i : nat) :
  map (fun w => w / t) ws !! i = (fun w => w / t) <$> ws !! i.
Proof.
  revert i. induction ws as [|w ws IH]; intros [|i]; simpl; auto.
Qed.

Lemma normalise_Some (ws p : list Q) :
  ADR.normalise ws = Some p ->
  ~ Np.sum ws == 0 /\ p = map (fun w => w / Np.sum ws) ws.
Proof.
  unfold ADR.normalise. destruct (Qeq_bool (Np.sum ws) 0) eqn:E; [discriminate|].
  intros [= <-]. split; [|reflexivity].
  intros Hc. apply Qeq_bool_iff in Hc. congruence.
Qed.

Lemma total_positive (ws : list Q) (j : nat) (w : Q) :
  ~ Np.sum ws == 0 ->
  Forall (fun x => 0 <= x) (map (fun w => w / Np.sum ws) ws) ->
  ws !! j = Some w -> 0 < w -> 0 < Np.sum ws.
Proof.
  intros Hne Hp Hj Hw.
  assert (Hq : 0 <= w / Np.sum ws).
  { apply (proj1 (Forall_lookup _ _) Hp j). now rewrite lookup_map_div, Hj. }
  assert (E : w / Np.sum ws * Np.sum ws == w) by (field; exact Hne).
  destruct (Qlt_le_dec 0 (Np.sum ws)) as [Hpos|Hneg]; [exact Hpos|].
  exfalso. nra.
Qed.

Lemma returns_bind {A : Type} (c : Py.M ADR.state A)
    (k : A -> Py.M ADR.state (list Q * option Z)) :
  keeps_engine c -> (forall a, returns_sample_idx (k a)) ->
  returns_sample_idx (Py.mbind c k).
Proof.
  intros Hc Hk st lam io st'. unfold Py.mbind. specialize (Hc st).
  destruct (c st) as [[a|e] st1]; simpl in *; [|discriminate].
  intros E. rewrite <- Hc. eapply Hk; eauto.
Qed.

Lemma returns_self (lam : list Q) :
  returns_sample_idx (self <- ADR.self_ ;; Py.ret (lam, ADR.sample_idx self)).
Proof. intros st lam' io st'. cbv. now intros [= _ <- _]. Qed.

(** C9. When boundary sampling is enabled, some flattened parameter has a
    positive weight and the draw is any number of [0, 1), the index that
    [boundary_sample] returns, which is also the one it records in
    [sample_idx], is that of a parameter of strictly positive weight.  A
    call that raises either raised before selecting, with the engine as it
    was, or recorded such an index; and when no weight is negative the
    call always records such an index.  So a parameter of weight 0 is never
    the one selected. *)
Theorem boundary_sample_selects_positive_weight
    (st st' : ADR.state) (res : Py.result (list Q * option Z)) :
  ADR.do_boundary_sample (fst st) = true ->
  0 <= Np.uniforms (random (snd st)) (Np.u_next (random (snd st))) ->
  Np.uniforms (random (snd st)) (Np.u_next (random (snd st))) < 1 ->
  (exists j v w, ADR.parameters (fst st) !! j = Some v /\
                 has_weight (snd st) v w /\ 0 < w) ->
  ADR.boundary_sample st = (res, st') ->
  (forall lam idx, res = Py.Ok (lam, idx) ->
     exists i v w,
       idx = Some (Z.of_nat i) /\
       ADR.sample_idx (fst st') = Some (Z.of_nat i) /\
       ADR.parameters (fst st) !! i = Some v /\
       has_weight (snd st) v w /\ 0 < w) /\
  ((fst st' = fst st /\ exists err, res = Py.Raise err) \/
   (exists i v w,
       ADR.sample_idx (fst st') = Some (Z.of_nat i) /\
       ADR.parameters (fst st) !! i = Some v /\
       has_weight (snd st) v w /\ 0 < w)) /\
  (Forall (fun v => exists w, has_weight (snd st) v w /\ 0 <= w)
          (ADR.parameters (fst st)) ->
   exists i v w,
     ADR.sample_idx (fst st') = Some (Z.of_nat i) /\
     ADR.parameters (fst st) !! i = Some v /\
     has_weight (snd st) v w /\ 0 < w).
Proof.
  destruct st as [e s]. simpl. intros Hdo Hu0 Hu1 (j & vj & wj & Hj & Hwj & Hpos).
  unfold ADR.boundary_sample.
  rewrite (mbind_ok ADR.self_ _ (e, s) (e, s) e eq_refl), Hdo.
  destruct (weights_run (ADR.parameters e) (e, s))
    as [(ws & Ew & HF)|(err & Ew & Hbad)]; simpl in *.
  2:{ rewrite (mbind_raise _ _ _ _ _ Ew). intros [= <- <-].
      split; [intros lam idx [=]|]. split; [left; eauto|].
      intros Hvalid. exfalso. apply Hbad.
        eapply Forall_impl; [exact Hvalid|]. intros v (w & Hw & _). eauto. }
  rewrite (mbind_ok _ _ _ _ _ Ew). cbv zeta.
  destruct (Forall2_lookup_l _ _ _ _ _ HF Hj) as (wj' & Hwsj & Hwj').
  rewrite <- (has_weight_fun _ _ _ _ Hwj Hwj') in Hwsj. clear wj' Hwj'.
  assert (Hnonneg :
    Forall (fun v => exists w, has_weight s v w /\ 0 <= w) (ADR.parameters e) ->
    Forall (fun x => 0 <= x) ws).
  { intros Hvalid. apply Forall_lookup. intros i w Hi.
    destruct (Forall2_lookup_r _ _ _ _ _ HF Hi) as (v & Hv & Hw).
    destruct (proj1 (Forall_lookup _ _) Hvalid i v Hv) as (w' & Hw' & Hle).
    now rewrite (has_weight_fun _ _ _ _ Hw Hw'). }
  unfold ADR.choose.
  destruct (ADR.normalise ws) as [p|] eqn:En.
  2:{ rewrite (mbind_raise (Py.raise Py.ValueError) _ (e, s) (e, s)
                 Py.ValueError eq_refl).
      intros [= <- <-]. split; [intros lam idx [=]|]. split; [left; eauto|].
      intros Hvalid. exfalso. unfold ADR.normalise in En.
      destruct (Qeq_bool (Np.sum ws) 0) eqn:Eq; [|discriminate].
      apply Qeq_bool_iff in Eq.
      pose proof (sum_positive ws j wj (Hnonneg Hvalid) Hwsj Hpos). lra. }
  apply normalise_Some in En as [Hne ->].
  set (p := map (fun w => w / Np.sum ws) ws) in *.
  destruct (Np.choice (length (ADR.parameters e)) p (random s))
    as [[idx|err] r'] eqn:Ec.
  2:{ assert (E : ADR.on_store
                    (try_draw (Np.choice (length (ADR.parameters e)) p)) (e, s)
                  = (Py.Raise err, (e, mkStore (params s) (dists s) r'))).
      { unfold ADR.on_store, try_draw; simpl. now rewrite Ec. }
      rewrite (mbind_raise _ _ _ _ _ E). intros [= <- <-].
      split; [intros lam idx [=]|]. split; [left; eauto|].
      intros Hvalid. exfalso.
      pose proof (sum_positive ws j wj (Hnonneg Hvalid) Hwsj Hpos) as Htot.
      destruct (choice_ok (length (ADR.parameters e)) p (random s))
        as [idx' Eok].
      - apply lookup_lt_Some in Hj. lia.
      - unfold p. rewrite length_map. symmetry. eapply Forall2_length, HF.
      - unfold p. apply Forall_lookup. intros i x Hi.
        rewrite lookup_map_div in Hi.
        apply fmap_Some in Hi as (w & Hw & ->).
        pose proof (proj1 (Forall_lookup _ _) (Hnonneg Hvalid) i w Hw) as Hw0.
        simpl in Hw0. apply Qle_shift_div_l; [exact Htot | lra].
      - unfold p. rewrite sum_map_div. field. exact Hne.
      - rewrite Eok in Ec. discriminate. }
  assert (E : ADR.on_store
                (try_draw (Np.choice (length (ADR.parameters e)) p)) (e, s)
              = (Py.Ok idx, (e, mkStore (params s) (dists s) r'))).
  { unfold ADR.on_store, try_draw; simpl. now rewrite Ec. }
  rewrite (mbind_ok _ _ _ _ _ E).
  rewrite (mbind_ok
             (ADR.assign (fun e0 => ADR.set_sample_idx e0 (Some (Z.of_nat idx))))
             _ (e, mkStore (params s) (dists s) r')
             (ADR.set_sample_idx e (Some (Z.of_nat idx)),
              mkStore (params s) (dists s) r') tt eq_refl).
  destruct (choice_inv _ _ _ _ _ Hu0 Hu1 Ec) as (_ & Hp & _ & x & Hx & Hx0).
  unfold p in Hx. rewrite lookup_map_div in Hx.
  apply fmap_Some in Hx as (wi & Hwi & ->).
  pose proof (total_positive ws j wj Hne Hp Hwsj Hpos) as Htot.
  assert (Hwi0 : 0 < wi).
  { assert (Ei : wi / Np.sum ws * Np.sum ws == wi) by (field; exact Hne).
    nra. }
  destruct (Forall2_lookup_r _ _ _ _ _ HF Hwi) as (vi & Hvi & Hhw).
  match goal with
  | |- ?T ?st1 = _ -> _ =>
      assert (HK : keeps_engine T);
      [|assert (HR : returns_sample_idx T);
        [|intros Hrun; pose proof (HK st1) as Hk; pose proof (HR st1) as Hr]]
  end.
  { repeat (apply keeps_bind;
            [first [apply keeps_self | apply keeps_lift | apply keeps_as_param
                   | apply keeps_on_store | apply keeps_episode_sample]
            | intros ?]).
    apply keeps_ret. }
  { repeat first
      [ apply returns_self
      | apply returns_bind;
        [first [apply keeps_self | apply keeps_lift | apply keeps_as_param
               | apply keeps_on_store | apply keeps_episode_sample]
        | intros ?] ]. }
  rewrite Hrun in Hk. simpl in Hk, Hr.
  assert (Hidx : ADR.sample_idx (fst st') = Some (Z.of_nat idx))
    by now rewrite Hk.
  split; [|split].
  - intros lam io ->. exists idx, vi, wi.
    rewrite (Hr lam io st' Hrun). auto.
  - right. exists idx, vi, wi. auto.
  - intros _. exists idx, vi, wi. auto.
Qed.

End BoundaryFacts.

Lemma boundary_sample_selects_positive_weight_witness :
  ADR.do_boundary_sample (fst weighted_engine) = true /\
  fst (@ADR.boundary_sample unit_exp weighted_engine)
  = Py.Ok ([1 + (3 - 1) * (1 # 2); 5 + (7 - 5) * (1 # 2)]%Q, Some 2%Z) /\
  exists i v w,
    ADR.sample_idx (fst (snd (@ADR.boundary_sample unit_exp weighted_engine)))
    = Some (Z.of_nat i) /\
    ADR.parameters (fst weighted_engine) !! i = Some v /\
    has_weight (snd weighted_engine) v w /\ (0 < w)%Q.
Proof.
  split; [reflexivity|]. split; [vm_compute; reflexivity|].
  refine (proj2 (proj2 (@boundary_sample_selects_positive_weight unit_exp
                   weighted_engine
                   (snd (@ADR.boundary_sample unit_exp weighted_engine))
                   (fst (@ADR.boundary_sample unit_exp weighted_engine))
                   eq_refl _ _ _ _)) _).
  - vm_compute. discriminate.
  - vm_compute. reflexivity.
  - exists 0%nat, (Py.VParam 0%nat), 1%Q. split; [reflexivity|]. split.
    + eexists _, _. repeat split; vm_compute; reflexivity.
    + reflexivity.
  - apply surjective_pairing.
  - repeat constructor;
      (eexists; split;
       [eexists _, _; split; [reflexivity|]; split;
        [vm_compute; reflexivity | reflexivity]
       | vm_compute; discriminate]).
Defined.

(** ** Sanity checks of the model on small inputs *)

Section Checks.
Local Open Scope Q_scope.

(** [centered_around(0, 5, 10)] starts with both values at 5 and width 0;
    its lower parameter moves by [-delta]. *)
Example centered_around_starts_closed :
  let s := snd (ADRUniform.centered_around 0 5 10 (2 # 100) 240 1 "c"
                  empty_store) in
  map ADRParam.value (params s) = [5; 5] /\
  map ADRParam.delta (params s) = [- (2 # 100); 2 # 100] /\
  map ADRParam.name (params s) = ["c_l"%string; "c_r"%string] /\
  fst (ADR.width 0%nat s) = Py.Ok (5 - 5).
Proof. repeat split; vm_compute; reflexivity. Qed.

(** Indexing a list as Python does. *)
Example getitem_cases :
  Py.getitem [10; 20; 30]%Z (-1) = Py.Ok 30%Z /\
  Py.getitem [10; 20; 30]%Z 3 = Py.Raise Py.IndexError /\
  Py.getitem_opt [10; 20; 30]%Z None = Py.Raise Py.TypeError.
Proof. repeat split. Qed.

(** The cumulative inversion on the weights 1, 0, 3, 0. *)
Example choice_on_weights :
  Np.searchsorted_right (Np.cumsum [1 # 4; 0; 3 # 4; 0]) (1 # 5) = 0%nat /\
  Np.searchsorted_right (Np.cumsum [1 # 4; 0; 3 # 4; 0]) (1 # 4) = 2%nat /\
  Np.searchsorted_right (Np.cumsum [1 # 4; 0; 3 # 4; 0]) (99 # 100) = 2%nat.
Proof. repeat split. Qed.

End Checks.

(** * Further properties *)

(** ** More on parameters *)

Section ParamMore.
Import ADRParam.
Local Open Scope Q_scope.

Lemma update_cases (self : t) (p_val : Q) (p_thresh : Q * Q) :
  update self p_val p_thresh = set_pq self (pq self ++ [p_val]) \/
  exists x,
    (x = value self - delta self \/ x = value self + delta self \/
     x = value self) /\
    update self p_val p_thresh =
    set_value (set_pq self [])
      (Np.clip x (fst (val_bound self)) (snd (val_bound self))).
Proof.
  destruct (pq_full self p_val) eqn:E.
  - right. rewrite update_full by exact E.
    exists (decide_value self (Np.mean (pq self ++ [p_val])) p_thresh).
    split; [|reflexivity]. unfold decide_value.
    destruct (Np.Qltb _ _); [auto|]. destruct (Np.Qltb _ _); auto.
  - left. now apply update_below.
Qed.

Lemma update_step_within (self : t) (p_val : Q) (p_thresh : Q * Q) :
  within (value self) (val_bound self) ->
  within (value (update self p_val p_thresh)) (val_bound self).
Proof.
  intros Hin. destruct (update_cases self p_val p_thresh)
    as [->|(x & _ & ->)]; [exact Hin|].
  simpl. destruct (val_bound self) as [lo hi]. simpl.
  apply clip_within. now apply within_ordered with (value self).
Qed.

(** X1. Whatever is fed to it, [update] changes nothing of a parameter
    but its value and its queue: delta, capacity, bounds, weight, flag and
    name are the same after any run of calls. *)
Theorem updates_keep_configuration
    (self : t) (calls : list (Q * (Q * Q))) :
  delta (updates self calls) = delta self /\
  pq_size (updates self calls) = pq_size self /\
  val_bound (updates self calls) = val_bound self /\
  boundary_sample_weight (updates self calls) = boundary_sample_weight self /\
  boundary_sample_flag (updates self calls) = boundary_sample_flag self /\
  name (updates self calls) = name self.
Proof.
  revert self. induction calls as [|[v th] calls IH]; intros self.
  - repeat split.
  - change (updates self ((v, th) :: calls))
      with (updates (update self v th) calls).
    destruct (IH (update self v th)) as (H1 & H2 & H3 & H4 & H5 & H6).
    rewrite H1, H2, H3, H4, H5, H6.
    destruct (update_cases self v th) as [->|(x & _ & ->)]; repeat split.
Qed.

Lemma clip_closer (x v : Q) (lo hi : option Q) :
  within v (lo, hi) ->
  Qabs (Np.clip x lo hi - v) <= Qabs (x - v).
Proof.
  intros Hin.
  assert (Hbetween :
    (v <= Np.clip x lo hi /\ Np.clip x lo hi <= x) \/
    (x <= Np.clip x lo hi /\ Np.clip x lo hi <= v)).
  { destruct Hin as [Hlo Hhi]. simpl in Hlo, Hhi.
    unfold Np.clip, Np.maximum, Np.minimum.
    destruct lo as [l|], hi as [h|].
    - destruct (Q.max_spec x l) as [[? E1]|[? E1]];
        destruct (Q.min_spec (Qmax x l) h) as [[? E2]|[? E2]];
        rewrite E2, ?E1 in *; destruct (Qlt_le_dec x v); lra.
    - destruct (Q.max_spec x l) as [[? E1]|[? E1]];
        rewrite E1; destruct (Qlt_le_dec x v); lra.
    - destruct (Q.min_spec x h) as [[? E2]|[? E2]];
        rewrite E2; destruct (Qlt_le_dec x v); lra.
    - destruct (Qlt_le_dec x v); lra. }
  set (c := Np.clip x lo hi) in *.
  destruct Hbetween as [[H1 H2]|[H1 H2]].
  - assert (Ea : Qabs (c - v) == c - v) by (apply Qabs_pos; lra).
    assert (Eb : Qabs (x - v) == x - v) by (apply Qabs_pos; lra).
    rewrite Ea, Eb. lra.
  - assert (Ea : Qabs (c - v) == - (c - v)) by (apply Qabs_neg; lra).
    assert (Eb : Qabs (x - v) == - (x - v)) by (apply Qabs_neg; lra).
    rewrite Ea, Eb. lra.
Qed.


Lemma update_delta (self : t) (p_val : Q) (p_thresh : Q * Q) :
  delta (update self p_val p_thresh) = delta self.
Proof.
  destruct (update_cases self p_val p_thresh) as [->|(x & _ & ->)];
    reflexivity.
Qed.




Lemma feed_remainder_le (m : nat) (p_vals : list Q) (self : t)
    (p_thresh : Q * Q) :
  (length p_vals <= m)%nat ->
  pq self = [] -> (1 <= pq_size self)%Z ->
  pq (feed self p_vals p_thresh)
  = drop (Z.to_nat (pq_size self)
          * (length p_vals / Z.to_nat (pq_size self)))%nat p_vals.
Proof.
  revert p_vals self. induction m as [|m IH]; intros p_vals self Hm Hpq Hcap.
  - destruct p_vals; [|simpl in Hm; lia]. rewrite drop_nil. exact Hpq.
  - set (n := Z.to_nat (pq_size self)).
    assert (Hn : (1 <= n)%nat) by (unfold n; lia).
    assert (Hnz : Z.of_nat n = pq_size self) by (unfold n; lia).
    destruct (Nat.lt_ge_cases (length p_vals) n) as [Hlt|Hge].
    + rewrite feed_below by (rewrite Hpq; simpl; lia).
      rewrite Hpq, Nat.div_small, Nat.mul_0_r by exact Hlt. reflexivity.
    + rewrite <- (take_drop n p_vals) at 1. rewrite feed_app.
      rewrite (feed_fill (take n p_vals))
        by (rewrite ?length_take_le; auto; lia).
      set (self1 := set_value (set_pq self []) _).
      rewrite (IH (drop n p_vals) self1);
        [|rewrite length_drop; lia | reflexivity | exact Hcap].
      change (pq_size self1) with (pq_size self). fold n.
      rewrite length_drop, drop_drop. f_equal.
      assert (E : (length p_vals / n
                   = (length p_vals - n) / n + 1)%nat).
      { rewrite <- Nat.div_add by lia.
        f_equal. lia. }
      rewrite E. lia.
Qed.

(** X3. From an empty queue and a capacity [n] of at least one, after any
    list of performance values the queue holds the values fed since the
    last multiple of [n], in order: its length is the number of values
    modulo [n], so it is always below capacity. *)
Theorem feed_queue_remainder (self : t) (p_vals : list Q) (p_thresh : Q * Q) :
  pq self = [] -> (1 <= pq_size self)%Z ->
  pq (feed self p_vals p_thresh)
  = drop (Z.to_nat (pq_size self)
          * (length p_vals / Z.to_nat (pq_size self)))%nat p_vals /\
  length (pq (feed self p_vals p_thresh))
  = (length p_vals mod Z.to_nat (pq_size self))%nat /\
  (Z.of_nat (length (pq (feed self p_vals p_thresh))) < pq_size self)%Z.
Proof.
  intros Hpq Hcap.
  pose proof (feed_remainder_le (length p_vals) p_vals self p_thresh
                (Nat.le_refl _) Hpq Hcap) as E.
  assert (Hlen : length (pq (feed self p_vals p_thresh))
                 = (length p_vals mod Z.to_nat (pq_size self))%nat).
  { rewrite E, length_drop, Nat.Div0.mod_eq. reflexivity. }
  split; [exact E|]. split; [exact Hlen|].
  rewrite Hlen.
  pose proof (Nat.mod_upper_bound (length p_vals) (Z.to_nat (pq_size self))).
  lia.
Qed.

Lemma feed_queue_remainder_witness :
  pq three_slot_param = [] /\ (1 <= pq_size three_slot_param)%Z /\
  pq (feed three_slot_param [20; 5; 20; 7; 8] (0, 10)) = [7; 8].
Proof.
  assert (Hcap : (1 <= pq_size three_slot_param)%Z) by (simpl; lia).
  split; [reflexivity|]. split; [exact Hcap|].
  exact (proj1 (feed_queue_remainder three_slot_param [20; 5; 20; 7; 8]
                  (0, 10) eq_refl Hcap)).
Defined.

















End ParamMore.

(** ** Relations kept by computations *)

Section Preserves.
Context {S : Type} (R : S -> S -> Prop).
Hypothesis R_refl : forall s, R s s.
Hypothesis R_trans : forall a b c, R a b -> R b c -> R a c.

Lemma preserves_ret {A : Type} (a : A) : preserves R (Py.ret a).
Proof. intros s. apply R_refl. Qed.

Lemma preserves_raise {A : Type} (e : Py.exn) : preserves R (@Py.raise S A e).
Proof. intros s. apply R_refl. Qed.

Lemma preserves_lift {A : Type} (r : Py.result A) : preserves R (Py.lift r).
Proof. intros s. apply R_refl. Qed.

Lemma preserves_bind {A B : Type} (c : Py.M S A) (k : A -> Py.M S B) :
  preserves R c -> (forall a, preserves R (k a)) ->
  preserves R (Py.mbind c k).
Proof.
  intros Hc Hk s. unfold Py.mbind. specialize (Hc s).
  destruct (c s) as [[a|e] s1]; simpl in *; [|exact Hc].
  eapply R_trans; [exact Hc | apply Hk].
Qed.

Lemma preserves_for_each {A : Type} (l : list A) (body : A -> Py.M S unit) :
  (forall a, preserves R (body a)) -> preserves R (Py.for_each l body).
Proof.
  intros Hb. induction l as [|a l IH]; simpl.
  - apply preserves_ret.
  - apply preserves_bind; [apply Hb | intros _; exact IH].
Qed.

Lemma preserves_map_each {A B : Type} (l : list A) (body : A -> Py.M S B) :
  (forall a, preserves R (body a)) -> preserves R (Py.map_each l body).
Proof.
  intros Hb. induction l as [|a l IH]; simpl.
  - apply preserves_ret.
  - apply preserves_bind; [apply Hb|]. intros b.
    apply preserves_bind; [exact IH|]. intros bs. apply preserves_ret.
Qed.

End Preserves.

Lemma preserves_weaken {S A : Type} (R R' : S -> S -> Prop) (c : Py.M S A) :
  (forall s s', R s s' -> R' s s') -> preserves R c -> preserves R' c.
Proof. intros HR Hc s. apply HR, Hc. Qed.

Section SampledFacts.
Import Heap.

Lemma Forall2_diag {A : Type} (P : A -> A -> Prop) (l : list A) :
  (forall a, P a a) -> Forall2 P l l.
Proof. intros HP. induction l; constructor; auto. Qed.

Lemma Forall2_compose {A : Type} (P : A -> A -> Prop) (l k m : list A) :
  (forall a b c, P a b -> P b c -> P a c) ->
  Forall2 P l k -> Forall2 P k m -> Forall2 P l m.
Proof.
  intros HP Hlk. revert m. induction Hlk; intros m Hkm;
    inversion Hkm; subst; constructor; eauto.
Qed.

Lemma Forall2_insert_self {A : Type} (P : A -> A -> Prop) (l : list A)
    (i : nat) (a b : A) :
  (forall a, P a a) -> l !! i = Some a -> P a b ->
  Forall2 P l (<[i := b]> l).
Proof.
  intros HP Hi Hab. rewrite <- (list_insert_id l i a Hi) at 1.
  apply Forall2_insert; [now apply Forall2_diag | exact Hab].
Qed.

Lemma param_sampled_refl (p : ADRParam.t) : param_sampled p p.
Proof. split; auto. Qed.

Lemma param_sampled_trans (a b c : ADRParam.t) :
  param_sampled a b -> param_sampled b c -> param_sampled a c.
Proof. intros [E1 F1] [E2 F2]. split; [congruence | auto]. Qed.

Lemma dist_sampled_refl (x : ADRDist.t) : dist_sampled x x.
Proof. repeat split. Qed.

Lemma dist_sampled_trans (a b c : ADRDist.t) :
  dist_sampled a b -> dist_sampled b c -> dist_sampled a c.
Proof.
  intros (A1 & A2 & A3) (B1 & B2 & B3). repeat split; congruence.
Qed.

Lemma generator_advanced_refl (r : Np.RandomState) : generator_advanced r r.
Proof. repeat split; lia. Qed.

Lemma generator_advanced_trans (a b c : Np.RandomState) :
  generator_advanced a b -> generator_advanced b c -> generator_advanced a c.
Proof.
  intros (A1 & A2 & A3 & A4) (B1 & B2 & B3 & B4).
  repeat split; try congruence; lia.
Qed.

Lemma sampled_refl (s : store) : sampled s s.
Proof.
  split; [|split].
  - apply Forall2_diag, param_sampled_refl.
  - apply Forall2_diag, dist_sampled_refl.
  - apply generator_advanced_refl.
Qed.

Lemma sampled_trans (a b c : store) : sampled a b -> sampled b c -> sampled a c.
Proof.
  intros (A1 & A2 & A3) (B1 & B2 & B3). split; [|split].
  - eapply Forall2_compose; eauto using param_sampled_trans.
  - eapply Forall2_compose; eauto using dist_sampled_trans.
  - eapply generator_advanced_trans; eauto.
Qed.

Lemma sampled_read_param (r : Py.pref) : preserves sampled (read_param r).
Proof.
  intros s. unfold read_param. destruct (params s !! r); apply sampled_refl.
Qed.

Lemma sampled_read_dist (d : Py.dref) : preserves sampled (read_dist d).
Proof.
  intros s. unfold read_dist. destruct (dists s !! d); apply sampled_refl.
Qed.

Lemma sampled_number (x : option Q) : preserves sampled (number x).
Proof. destruct x; intros s; apply sampled_refl. Qed.

Lemma sampled_set_last_sample (d : Py.dref) (x : Q) :
  preserves sampled (set_last_sample d x).
Proof.
  intros s. unfold set_last_sample, Py.mbind, read_dist.
  destruct (dists s !! d) as [self|] eqn:Hd; [|apply sampled_refl].
  simpl. split; [|split]; simpl.
  - apply Forall2_diag, param_sampled_refl.
  - eapply Forall2_insert_self; eauto using dist_sampled_refl.
    repeat split.
  - apply generator_advanced_refl.
Qed.

Lemma sampled_clear (r : Py.pref) (p : ADRParam.t) (s : store) :
  params s !! r = Some p ->
  sampled s (mkStore (<[r := ADRParam.set_boundary_sample_flag p false]>
                        (params s)) (dists s) (random s)).
Proof.
  intros Hp. split; [|split]; simpl.
  - eapply Forall2_insert_self; eauto using param_sampled_refl.
    split; [now destruct p | simpl; discriminate].
  - apply Forall2_diag, dist_sampled_refl.
  - apply generator_advanced_refl.
Qed.

Lemma sampled_consume_flag (d : Py.dref) (v : Py.pyval) :
  preserves sampled (ADRUniform.consume_flag d v).
Proof.
  intros s. destruct v as [|r|l|o m]; try apply sampled_refl.
  unfold ADRUniform.consume_flag, Py.mbind at 1, read_param at 1.
  destruct (params s !! r) as [p|] eqn:Hp; [|apply sampled_refl].
  destruct (ADRParam.get_boundary_sample_flag p); [|apply sampled_refl].
  unfold Py.mbind at 1, write_param, Py.modify.
  eapply sampled_trans; [apply (sampled_clear r p s Hp)|].
  apply (preserves_bind sampled sampled_trans);
    [apply sampled_read_param | intros q; apply sampled_set_last_sample].
Qed.

Lemma sampled_draw_uniform (low high : Q) :
  preserves sampled (draw (Np.uniform low high)).
Proof.
  intros s. unfold draw, Np.uniform, Np.random_sample; simpl.
  split; [|split]; simpl.
  - apply Forall2_diag, param_sampled_refl.
  - apply Forall2_diag, dist_sampled_refl.
  - repeat split; simpl; lia.
Qed.

Lemma sampled_draw_normal (loc scale : Q) :
  preserves sampled (try_draw (Np.normal loc scale)).
Proof.
  intros s. unfold try_draw, Np.normal, Np.standard_normal.
  destruct (Np.Qltb scale 0); simpl.
  - destruct s; apply sampled_refl.
  - split; [|split]; simpl.
    + apply Forall2_diag, param_sampled_refl.
    + apply Forall2_diag, dist_sampled_refl.
    + repeat split; simpl; lia.
Qed.

Lemma sampled_draw_choice (n : nat) (p : list Q) :
  preserves sampled (try_draw (Np.choice n p)).
Proof.
  intros s. unfold try_draw, Np.choice, Np.random_sample.
  repeat (match goal with
          | |- context [if ?b then _ else _] => destruct b
          end; simpl; try (destruct s; apply sampled_refl)).
  split; [|split]; simpl.
  - apply Forall2_diag, param_sampled_refl.
  - apply Forall2_diag, dist_sampled_refl.
  - repeat split; simpl; lia.
Qed.

End SampledFacts.

(** ** Sampling leaves the parameters alone *)

Ltac sampled_step :=
  first
    [ assumption
    | apply sampled_read_param
    | apply sampled_read_dist
    | apply sampled_number
    | apply sampled_set_last_sample
    | apply sampled_consume_flag
    | apply sampled_draw_uniform
    | apply sampled_draw_normal
    | apply (preserves_ret sampled sampled_refl)
    | apply (preserves_raise sampled sampled_refl)
    | apply (preserves_lift sampled sampled_refl)
    | apply (preserves_for_each sampled sampled_refl sampled_trans); intros ?
    | apply (preserves_bind sampled sampled_trans); [|intros ?] ].

Section SamplingFacts.
Context `{Exp}.
Import Heap.

Lemma sampled_uniform (d : Py.dref) (phi_l phi_h : Py.pref) :
  preserves sampled (ADRUniform.episode_sample d phi_l phi_h).
Proof. unfold ADRUniform.episode_sample. repeat sampled_step. Qed.

Lemma sampled_additive (sample : Py.dref -> Py.M store Q) (d : Py.dref)
    (x_0 : Q) (lam_i lam_j : Py.dref) (alpha : option Q) :
  (forall c, preserves sampled (sample c)) ->
  preserves sampled
    (ADRAdditiveGaussian.episode_sample sample d x_0 lam_i lam_j alpha).
Proof.
  intros Hs. unfold ADRAdditiveGaussian.episode_sample.
  destruct alpha; repeat first [apply Hs | sampled_step].
Qed.

Lemma sampled_unbiased (sample : Py.dref -> Py.M store Q) (d : Py.dref)
    (x_0 : Q) (lam_i : Py.dref) (alpha : Q) :
  (forall c, preserves sampled (sample c)) ->
  preserves sampled
    (ADRUnbiasedAdditiveGaussian.episode_sample sample d x_0 lam_i alpha).
Proof.
  intros Hs. unfold ADRUnbiasedAdditiveGaussian.episode_sample.
  repeat first [apply Hs | sampled_step].
Qed.

Lemma sampled_multiplicative (sample : Py.dref -> Py.M store Q) (d : Py.dref)
    (x_0 : Q) (lam_i lam_j : Py.dref) (alpha : Q) :
  (forall c, preserves sampled (sample c)) ->
  preserves sampled
    (ADRMultiplicative.episode_sample sample d x_0 lam_i lam_j alpha).
Proof.
  intros Hs. unfold ADRMultiplicative.episode_sample.
  repeat first [apply Hs | sampled_step].
Qed.

Lemma sampled_noise_step (sample : Py.dref -> Py.M store Q) (d : Py.dref)
    (a_0 : Q) (lam_i lam_j lam_k : Py.dref) :
  (forall c, preserves sampled (sample c)) ->
  preserves sampled
    (ADRActionNoise.step_sample sample d a_0 lam_i lam_j lam_k).
Proof.
  intros Hs. unfold ADRActionNoise.step_sample, get_last_sample.
  repeat first [apply Hs | sampled_step].
Qed.

Lemma sampled_noise (sample : Py.dref -> Py.M store Q) (d : Py.dref)
    (a_0 : Q) (lam_i lam_j lam_k : Py.dref) :
  (forall c, preserves sampled (sample c)) ->
  preserves sampled
    (ADRActionNoise.episode_sample sample d a_0 lam_i lam_j lam_k).
Proof.
  intros Hs. unfold ADRActionNoise.episode_sample.
  repeat first [apply Hs | apply sampled_noise_step | sampled_step].
Qed.

Lemma sampled_episode_sample_at (depth : nat) (d : Py.dref) :
  preserves sampled (Dispatch.episode_sample_at depth d).
Proof.
  revert d. induction depth as [|depth IH]; intros d.
  - apply (preserves_raise sampled sampled_refl).
  - cbn [Dispatch.episode_sample_at].
    apply (preserves_bind sampled sampled_trans);
      [apply sampled_read_dist|]. intros self.
    destruct (ADRDist.own self).
    + apply (preserves_raise sampled sampled_refl).
    + apply sampled_uniform.
    + now apply sampled_additive.
    + now apply sampled_unbiased.
    + now apply sampled_multiplicative.
    + now apply sampled_noise.
Qed.

Lemma sampled_step_sample (d : Py.dref) :
  preserves sampled (Dispatch.step_sample d).
Proof.
  unfold Dispatch.step_sample.
  apply (preserves_bind sampled sampled_trans);
    [apply sampled_read_dist|]. intros self.
  destruct (ADRDist.own self);
    first [ apply (preserves_raise sampled sampled_refl)
          | apply sampled_noise_step; intros c;
            apply sampled_episode_sample_at ].
Qed.

Lemma sampled_lookup (s s' : store) (r : Py.pref) (p : ADRParam.t) :
  sampled s s' -> params s !! r = Some p ->
  exists p', params s' !! r = Some p' /\ param_sampled p p'.
Proof.
  intros (Hp & _ & _) Hr. eapply Forall2_lookup_l; eauto.
Qed.

(** X6. Sampling a distribution, of any class and however nested, whether
    the call returns or raises, changes no parameter except for clearing
    boundary flags: every parameter keeps its value, bounds, delta,
    capacity, queue, weight and name, and no flag is raised.  The
    distributions keep their class, children, parameter list and name, and
    the generator only moves forward along its streams. *)
Theorem sampling_only_clears_flags (d : Py.dref) (s : store) :
  sampled s (snd (Dispatch.episode_sample d s)) /\
  sampled s (snd (Dispatch.step_sample d s)) /\
  (forall r p,
      params s !! r = Some p ->
      exists p',
        params (snd (Dispatch.episode_sample d s)) !! r = Some p' /\
        ADRParam.value p' = ADRParam.value p /\
        ADRParam.val_bound p' = ADRParam.val_bound p /\
        ADRParam.delta p' = ADRParam.delta p /\
        ADRParam.pq_size p' = ADRParam.pq_size p /\
        ADRParam.pq p' = ADRParam.pq p /\
        ADRParam.boundary_sample_weight p'
        = ADRParam.boundary_sample_weight p /\
        ADRParam.name p' = ADRParam.name p /\
        (ADRParam.boundary_sample_flag p' = true ->
         ADRParam.boundary_sample_flag p = true)) /\
  length (params (snd (Dispatch.episode_sample d s))) = length (params s) /\
  length (dists (snd (Dispatch.episode_sample d s))) = length (dists s).
Proof.
  assert (He : sampled s (snd (Dispatch.episode_sample d s)))
    by exact (sampled_episode_sample_at Dispatch.recursion_limit d s).
  assert (Hs : sampled s (snd (Dispatch.step_sample d s)))
    by exact (sampled_step_sample d s).
  revert He Hs.
  generalize (snd (Dispatch.episode_sample d s)) as s1.
  generalize (snd (Dispatch.step_sample d s)) as s2.
  intros s2 s1 He Hs.
  split; [exact He|]. split; [exact Hs|].
  split; [|split].
  - intros r p Hr.
    destruct (sampled_lookup _ _ r p He Hr) as (p' & Hr' & Hc & Hf).
    exists p'. split; [exact Hr'|].
    unfold clear_flag in Hc. destruct p, p'; simpl in *.
    injection Hc as -> -> -> -> -> -> ->. repeat split; auto.
  - destruct He as (Hp & _ & _). symmetry. eapply Forall2_length, Hp.
  - destruct He as (_ & Hd & _). symmetry. eapply Forall2_length, Hd.
Qed.

End SamplingFacts.

(** ** The engine keeps every parameter within its bounds *)

Section OnHeap.
Variable R : store -> store -> Prop.
Hypothesis R_refl : forall s, R s s.
Hypothesis R_trans : forall a b c, R a b -> R b c -> R a c.

Lemma on_heap_refl (st : ADR.state) : on_heap R st st.
Proof. apply R_refl. Qed.

Lemma on_heap_trans (a b c : ADR.state) :
  on_heap R a b -> on_heap R b c -> on_heap R a c.
Proof. unfold on_heap. eauto. Qed.

Lemma on_heap_on_store {A : Type} (c : Py.M store A) :
  preserves R c -> preserves (on_heap R) (ADR.on_store c).
Proof.
  intros Hc st. unfold on_heap, ADR.on_store. specialize (Hc (snd st)).
  now destruct (c (snd st)).
Qed.

Lemma on_heap_self : preserves (on_heap R) ADR.self_.
Proof. intros st. apply R_refl. Qed.

Lemma on_heap_assign (f : ADR.t -> ADR.t) : preserves (on_heap R) (ADR.assign f).
Proof. intros st. apply R_refl. Qed.

Lemma on_heap_as_param (attr : string) (v : Py.pyval) :
  preserves (on_heap R) (ADR.as_param attr v).
Proof. destruct v; intros st; apply R_refl. Qed.

End OnHeap.

Section EngineBounds.
Context `{Exp}.
Import Heap.

Lemma store_kept_refl (s : store) : store_kept s s.
Proof.
  split; apply Forall2_diag; [reflexivity | apply dist_sampled_refl].
Qed.

Lemma store_kept_trans (a b c : store) :
  store_kept a b -> store_kept b c -> store_kept a c.
Proof.
  intros [P1 D1] [P2 D2]. split.
  - eapply Forall2_compose; eauto. unfold param_kept. congruence.
  - eapply Forall2_compose; eauto using dist_sampled_trans.
Qed.

Lemma sampled_kept (s s' : store) : sampled s s' -> store_kept s s'.
Proof.
  intros (Hp & Hd & _). split; [|exact Hd].
  eapply Forall2_impl; [exact Hp|]. now intros p p' [E _].
Qed.

Lemma kept_of_sampled {A : Type} (c : Py.M store A) :
  preserves sampled c -> preserves (on_heap store_kept) (ADR.on_store c).
Proof.
  intros Hc. apply on_heap_on_store.
  eapply preserves_weaken; [apply sampled_kept | exact Hc].
Qed.

Lemma kept_episode_sample :
  preserves (on_heap store_kept) ADR.episode_sample.
Proof.
  unfold ADR.episode_sample.
  apply (preserves_bind _ (on_heap_trans _ store_kept_trans));
    [apply on_heap_self, store_kept_refl|]. intros self.
  apply (preserves_map_each _ (on_heap_refl _ store_kept_refl)
                            (on_heap_trans _ store_kept_trans)).
  intros d. apply kept_of_sampled. intros s.
  apply sampled_episode_sample_at.
Qed.

Lemma sampled_width (d : Py.dref) : preserves sampled (ADR.width d).
Proof.
  unfold ADR.width.
  apply (preserves_bind sampled sampled_trans); [apply sampled_read_dist|].
  intros x. destruct (ADRDist.own x); repeat sampled_step.
Qed.

Lemma sampled_total_width (ds : list Py.dref) (total : Q) :
  preserves sampled (ADR.total_width_from total ds).
Proof.
  revert total. induction ds as [|d ds IH]; intros total; simpl.
  - apply (preserves_ret sampled sampled_refl).
  - apply (preserves_bind sampled sampled_trans); [apply sampled_width|].
    intros w. apply IH.
Qed.

Lemma kept_total_distribution_width :
  preserves (on_heap store_kept) ADR.total_distribution_width.
Proof.
  unfold ADR.total_distribution_width.
  apply (preserves_bind _ (on_heap_trans _ store_kept_trans));
    [apply on_heap_self, store_kept_refl|]. intros self.
  apply kept_of_sampled, sampled_total_width.
Qed.

(** Reading the parameter at [r] and acting on what was read. *)
Lemma read_then {A : Type} (R : store -> store -> Prop) (r : Py.pref)
    (k : ADRParam.t -> Py.M ADR.state A) :
  (forall s, R s s) ->
  (forall p st, params (snd st) !! r = Some p ->
                on_heap R st (snd (k p st))) ->
  preserves (on_heap R) (p <- ADR.on_store (read_param r) ;; k p).
Proof.
  intros HR Hk st. unfold Py.mbind. rewrite on_store_read_param.
  destruct (params (snd st) !! r) as [p|] eqn:Hp.
  - now apply Hk.
  - apply HR.
Qed.

Lemma kept_write_flag (r : Py.pref) (p : ADRParam.t) (b : bool)
    (st : ADR.state) :
  params (snd st) !! r = Some p ->
  on_heap store_kept st
    (snd (ADR.on_store
            (write_param r (ADRParam.set_boundary_sample_flag p b)) st)).
Proof.
  intros Hp. destruct st as [e s]. unfold on_heap, store_kept; simpl.
  split; [|apply Forall2_diag, dist_sampled_refl].
  eapply Forall2_insert_self; eauto; [reflexivity|].
  unfold param_kept. now destruct p.
Qed.

Lemma kept_weights (ps : list Py.pyval) :
  preserves (on_heap store_kept)
    (Py.map_each ps
       (fun v => r <- ADR.as_param "get_boundary_sample_weight" v ;;
                 p <- ADR.on_store (read_param r) ;;
                 Py.ret (ADRParam.get_boundary_sample_weight p))).
Proof.
  apply (preserves_map_each _ (on_heap_refl _ store_kept_refl)
                            (on_heap_trans _ store_kept_trans)).
  intros v.
  apply (preserves_bind _ (on_heap_trans _ store_kept_trans));
    [apply on_heap_as_param, store_kept_refl|]. intros r.
  apply (preserves_bind _ (on_heap_trans _ store_kept_trans)).
  - apply kept_of_sampled, sampled_read_param.
  - intros p. apply (preserves_ret _ (on_heap_refl _ store_kept_refl)).
Qed.

Lemma kept_boundary_sample :
  preserves (on_heap store_kept) ADR.boundary_sample.
Proof.
  pose proof (on_heap_trans _ store_kept_trans) as Ht.
  pose proof (on_heap_refl _ store_kept_refl) as Hr.
  unfold ADR.boundary_sample.
  apply (preserves_bind _ Ht); [apply on_heap_self, store_kept_refl|].
  intros self. destruct (ADR.do_boundary_sample self).
  - apply (preserves_bind _ Ht); [apply kept_weights|]. intros ws.
    apply (preserves_bind _ Ht).
    { unfold ADR.choose. destruct (ADR.normalise ws).
      - apply kept_of_sampled, sampled_draw_choice.
      - apply (preserves_raise _ Hr). }
    intros idx.
    apply (preserves_bind _ Ht); [apply on_heap_assign, store_kept_refl|].
    intros _.
    apply (preserves_bind _ Ht); [apply on_heap_self, store_kept_refl|].
    intros self1.
    apply (preserves_bind _ Ht); [apply (preserves_lift _ Hr)|]. intros v.
    apply (preserves_bind _ Ht); [apply on_heap_as_param, store_kept_refl|].
    intros r.
    apply read_then; [apply store_kept_refl|]. intros p st Hp.
    unfold Py.mbind at 1.
    pose proof (kept_write_flag r p true st Hp) as Hw.
    destruct (ADR.on_store _ st) as [[u|e] st1]; simpl in *; [|exact Hw].
    eapply Ht; [exact Hw|].
    apply (preserves_bind _ Ht); [apply kept_episode_sample|]. intros lam.
    apply (preserves_bind _ Ht); [apply on_heap_self, store_kept_refl|].
    intros self2. apply (preserves_ret _ Hr).
  - apply (preserves_bind _ Ht); [apply on_heap_assign, store_kept_refl|].
    intros _.
    apply (preserves_bind _ Ht); [apply kept_episode_sample|]. intros lam.
    apply (preserves_bind _ Ht); [apply on_heap_self, store_kept_refl|].
    intros self2. apply (preserves_ret _ Hr).
Qed.

Lemma stays_bounded_refl (r : Py.pref) (b : option Q * option Q) (s : store) :
  stays_bounded r b s s.
Proof. now intros Hb. Qed.

Lemma stays_bounded_trans (r : Py.pref) (b : option Q * option Q)
    (s1 s2 s3 : store) :
  stays_bounded r b s1 s2 -> stays_bounded r b s2 s3 ->
  stays_bounded r b s1 s3.
Proof. unfold stays_bounded. auto. Qed.

Lemma kept_stays_bounded (r : Py.pref) (b : option Q * option Q)
    (s s' : store) :
  store_kept s s' -> stays_bounded r b s s'.
Proof.
  intros [Hk _] (p & Hp & Hb & Hw).
  destruct (Forall2_lookup_l _ _ _ _ _ Hk Hp) as (p' & Hp' & Hc).
  exists p'. split; [exact Hp'|].
  unfold param_kept, clear_flag in Hc. destruct p, p'; simpl in *.
  injection Hc as -> -> -> -> -> -> ->. auto.
Qed.

Lemma bounded_of_kept {A : Type} (r : Py.pref) (b : option Q * option Q)
    (c : Py.M ADR.state A) :
  preserves (on_heap store_kept) c ->
  preserves (on_heap (stays_bounded r b)) c.
Proof.
  apply preserves_weaken. intros st st'. apply kept_stays_bounded.
Qed.

Lemma update_stays_bounded (r : Py.pref) (b : option Q * option Q)
    (performance : Q) (param_idx : option Z) :
  preserves (on_heap (stays_bounded r b)) (ADR.update performance param_idx).
Proof.
  pose proof (on_heap_trans _ (stays_bounded_trans r b)) as Ht.
  pose proof (on_heap_refl _ (stays_bounded_refl r b)) as Hr.
  unfold ADR.update.
  apply (preserves_bind _ Ht); [apply on_heap_self, stays_bounded_refl|].
  intros self.
  apply (preserves_bind _ Ht); [apply (preserves_lift _ Hr)|]. intros v.
  apply (preserves_bind _ Ht); [apply on_heap_as_param, stays_bounded_refl|].
  intros r'.
  apply read_then; [apply stays_bounded_refl|]. intros p st Hp.
  destruct st as [e s]. unfold on_heap; simpl in *.
  intros (q & Hq & Hb & Hw).
  unfold bounded_at, ADR.on_store, write_param, Py.modify; simpl.
  destruct (decide (r' = r)) as [->|Hne].
  - exists (ADRParam.update p performance (ADR.p_thresh self)).
    assert (q = p) by congruence. subst q.
    split; [|split].
    + apply list_lookup_insert_eq. eapply lookup_lt_Some; eauto.
    + now rewrite update_val_bound.
    + rewrite <- Hb in *. now apply update_step_within.
  - exists q. split; [|auto]. now rewrite list_lookup_insert_ne.
Qed.

Lemma bounded_after_engine_calls
    (r : Py.pref) (b : option Q * option Q) (st : ADR.state)
    (calls : list engine_call) :
  bounded_at r b (snd st) ->
  bounded_at r b (snd (after_engine_calls st calls)).
Proof.
  revert st. induction calls as [|c calls IH]; intros st Hb; [exact Hb|].
  change (after_engine_calls st (c :: calls))
    with (after_engine_calls (after_engine_call st c) calls).
  apply IH. revert Hb.
  change (on_heap (stays_bounded r b) st (after_engine_call st c)).
  destruct c; simpl.
  - apply update_stays_bounded.
  - apply bounded_of_kept, kept_episode_sample.
  - apply bounded_of_kept, kept_boundary_sample.
  - apply bounded_of_kept, kept_total_distribution_width.
Qed.

(** X7. No call on an engine takes a parameter out of its bounds: if the
    parameter at an address has bounds [b] and a value within them, it
    still has after any sequence of [update] (with or without index),
    [episode_sample], [boundary_sample] and [total_distribution_width]
    calls, whether the calls return or raise. *)
Theorem engine_keeps_parameters_bounded
    (r : Py.pref) (b : option Q * option Q) (st : ADR.state)
    (calls : list engine_call) :
  bounded_at r b (snd st) ->
  bounded_at r b (snd (after_engine_calls st calls)).
Proof. apply bounded_after_engine_calls. Qed.

End EngineBounds.

Lemma engine_keeps_parameters_bounded_witness :
  bounded_at 0 (None, Some 2%Q) (snd weighted_engine) /\
  bounded_at 0 (None, Some 2%Q)
    (snd (@after_engine_calls unit_exp weighted_engine
            [EBoundarySample; EUpdate 20 None; EUpdate 20 (Some 0%Z);
             EEpisodeSample])).
Proof.
  assert (Hb : bounded_at 0 (None, Some 2%Q) (snd weighted_engine)).
  { eexists. split; [vm_compute; reflexivity|]. split; [reflexivity|].
    split; simpl; [exact I | discriminate]. }
  split; [exact Hb|].
  exact (@engine_keeps_parameters_bounded unit_exp 0%nat (None, Some 2%Q)
           weighted_engine _ Hb).
Defined.

(** ** What an engine call may change *)

Ltac stepped_same :=
  refine (conj eq_refl (conj eq_refl (conj eq_refl (conj eq_refl
            (conj eq_refl (conj (fun Hw => Hw) (fun _ _ => Qeq_refl _))))))).

Section EngineSteps.
Context `{Exp}.
Import Heap.
Local Open Scope Q_scope.

Lemma param_stepped_refl (p : ADRParam.t) : param_stepped p p.
Proof. stepped_same. Qed.

Lemma param_stepped_trans (a b c : ADRParam.t) :
  param_stepped a b -> param_stepped b c -> param_stepped a c.
Proof.
  intros (A1 & A2 & A3 & A4 & A5 & A6 & A7) (B1 & B2 & B3 & B4 & B5 & B6 & B7).
  split; [congruence|]. split; [congruence|]. split; [congruence|].
  split; [congruence|]. split; [congruence|]. split.
  - intros Hw. rewrite <- A3. apply B6. rewrite A3. now apply A6.
  - intros Hd Hw. rewrite B7, A7; auto; try reflexivity.
    + now rewrite A1.
    + rewrite A3. now apply A6.
Qed.

Lemma engine_stepped_refl (s : store) : engine_stepped s s.
Proof.
  split; apply Forall2_diag;
    [apply param_stepped_refl | apply dist_sampled_refl].
Qed.

Lemma engine_stepped_trans (a b c : store) :
  engine_stepped a b -> engine_stepped b c -> engine_stepped a c.
Proof.
  intros [P1 D1] [P2 D2]. split.
  - eapply Forall2_compose; eauto using param_stepped_trans.
  - eapply Forall2_compose; eauto using dist_sampled_trans.
Qed.

Lemma kept_stepped (s s' : store) : store_kept s s' -> engine_stepped s s'.
Proof.
  intros [Hp Hd]. split; [|exact Hd].
  eapply Forall2_impl; [exact Hp|]. intros p p' Hc.
  unfold param_kept, clear_flag in Hc. destruct p, p'; simpl in *.
  injection Hc as -> -> -> -> -> -> ->. stepped_same.
Qed.

Lemma update_fixed (self : ADRParam.t) (p_val : Q) (p_thresh : Q * Q) :
  ADRParam.delta self == 0 ->
  ADRParam.within (ADRParam.value self) (ADRParam.val_bound self) ->
  ADRParam.value (ADRParam.update self p_val p_thresh)
  == ADRParam.value self.
Proof.
  intros Hd Hin.
  destruct (update_cases self p_val p_thresh) as [->|(x & Hx & ->)];
    cbn [ADRParam.value ADRParam.set_value ADRParam.set_pq];
    [reflexivity|].
  assert (Ex : x - ADRParam.value self == 0).
  { destruct Hx as [-> | [-> | ->]]; rewrite ?Hd; ring. }
  destruct (ADRParam.val_bound self) as [lo hi]. cbn [fst snd].
  pose proof (clip_closer x (ADRParam.value self) lo hi Hin) as Hc.
  rewrite Ex in Hc. change (Qabs 0) with 0 in Hc.
  apply Qabs_Qle_condition in Hc. lra.
Qed.

Lemma update_param_stepped (p : ADRParam.t) (p_val : Q) (p_thresh : Q * Q) :
  param_stepped p (ADRParam.update p p_val p_thresh).
Proof.
  split; [apply update_delta|].
  destruct (update_cases p p_val p_thresh) as [E|(x & _ & E)].
  - rewrite E. split; [reflexivity|]. split; [reflexivity|].
    split; [reflexivity|]. split; [reflexivity|].
    split; [auto | intros; apply Qeq_refl].
  - split; [rewrite E; reflexivity|]. split; [rewrite E; reflexivity|].
    split; [rewrite E; reflexivity|]. split; [rewrite E; reflexivity|].
    split; [now apply update_step_within | now apply update_fixed].
Qed.

Lemma update_engine_stepped (performance : Q) (param_idx : option Z) :
  preserves (on_heap engine_stepped) (ADR.update performance param_idx).
Proof.
  pose proof (on_heap_trans _ engine_stepped_trans) as Ht.
  pose proof (on_heap_refl _ engine_stepped_refl) as Hr.
  unfold ADR.update.
  apply (preserves_bind _ Ht); [apply on_heap_self, engine_stepped_refl|].
  intros self.
  apply (preserves_bind _ Ht); [apply (preserves_lift _ Hr)|]. intros v.
  apply (preserves_bind _ Ht); [apply on_heap_as_param, engine_stepped_refl|].
  intros r.
  apply read_then; [apply engine_stepped_refl|]. intros p st Hp.
  destruct st as [e s].
  unfold on_heap, engine_stepped, ADR.on_store, write_param, Py.modify;
    simpl in *.
  split; [|apply Forall2_diag, dist_sampled_refl].
  eapply Forall2_insert_self; eauto using param_stepped_refl.
  apply update_param_stepped.
Qed.

Lemma stepped_of_kept {A : Type} (c : Py.M ADR.state A) :
  preserves (on_heap store_kept) c -> preserves (on_heap engine_stepped) c.
Proof.
  apply preserves_weaken. intros st st'. apply kept_stepped.
Qed.

Lemma stepped_after_engine_calls (st : ADR.state) (calls : list engine_call) :
  engine_stepped (snd st) (snd (after_engine_calls st calls)).
Proof.
  revert st. induction calls as [|c calls IH]; intros st.
  - apply engine_stepped_refl.
  - change (after_engine_calls st (c :: calls))
      with (after_engine_calls (after_engine_call st c) calls).
    eapply engine_stepped_trans; [|apply IH].
    change (on_heap engine_stepped st (after_engine_call st c)).
    destruct c; simpl.
    + apply update_engine_stepped.
    + apply stepped_of_kept, kept_episode_sample.
    + apply stepped_of_kept, kept_boundary_sample.
    + apply stepped_of_kept, kept_total_distribution_width.
Qed.

(** X8. Whatever calls are made on an engine, in any order and whether
    they return or raise, the store keeps its shape: no parameter or
    distribution is added or removed, every parameter keeps its delta,
    capacity, bounds, weight and name, every distribution keeps its class,
    children, parameter list and name, and a parameter whose delta is 0
    and whose value is within its bounds keeps the same value. *)
Theorem engine_calls_keep_configuration
    (st : ADR.state) (calls : list engine_call) :
  engine_stepped (snd st) (snd (after_engine_calls st calls)) /\
  length (params (snd (after_engine_calls st calls)))
  = length (params (snd st)) /\
  length (dists (snd (after_engine_calls st calls)))
  = length (dists (snd st)) /\
  (forall r p,
      params (snd st) !! r = Some p ->
      exists p',
        params (snd (after_engine_calls st calls)) !! r = Some p' /\
        param_stepped p p') /\
  (forall d x,
      dists (snd st) !! d = Some x ->
      exists x',
        dists (snd (after_engine_calls st calls)) !! d = Some x' /\
        dist_sampled x x').
Proof.
  pose proof (stepped_after_engine_calls st calls) as [Hp Hd].
  split; [now split|]. split; [|split; [|split]].
  - symmetry. eapply Forall2_length, Hp.
  - symmetry. eapply Forall2_length, Hd.
  - intros r p Hr. eapply Forall2_lookup_l; eauto.
  - intros d x Hx. eapply Forall2_lookup_l; eauto.
Qed.

End EngineSteps.

(** ** The factories of uniform distributions *)

Section FactoryFacts.
Import Heap.
Local Open Scope Q_scope.

Lemma insert_two_last {A : Type} (l : list A) (x y x' y' : A) :
  <[S (length l) := y']> (<[length l := x']> ((l ++ [x]) ++ [y]))
  = l ++ [x'; y'].
Proof. induction l as [|a l IH]; simpl; [reflexivity | now f_equal]. Qed.

Lemma uniform_of_two (p1 p2 : ADRParam.t) (name : string) (s : store) :
  (l <- alloc_param p1 ;; r <- alloc_param p2 ;; ADRUniform.init l r name) s
  = (Py.Ok (length (dists s)),
     mkStore
       (params s ++ [ADRParam.set_name p1 (name +:+ "_l");
                     ADRParam.set_name p2 (name +:+ "_r")])
       (dists s ++
        [ADRDist.mk None
           (Py.VList [Py.VParam (length (params s));
                      Py.VParam (S (length (params s)))])
           name
           (ADRDist.Uniform (length (params s)) (S (length (params s))))])
       (random s)).
Proof.
  destruct s as [ps ds rs]. unfold alloc_param, Py.mbind at 1 2; simpl.
  rewrite length_app; simpl. rewrite Nat.add_1_r.
  unfold ADRUniform.init, alloc_dist, Py.mbind at 1; simpl.
  unfold Py.mbind at 1, ADRUniform.update_boundary_names.
  unfold Py.mbind at 1, read_dist; simpl.
  rewrite list_lookup_middle by reflexivity. simpl.
  unfold Py.mbind at 1, read_param at 1; simpl.
  rewrite lookup_app_l, list_lookup_middle by (rewrite ?length_app; simpl; lia).
  unfold Py.mbind at 1, write_param at 1, Py.modify; simpl.
  unfold Py.mbind at 1, read_param at 1; simpl.
  rewrite list_lookup_insert_ne by lia.
  replace (S (length ps)) with (length (ps ++ [p1])) at 1
    by (rewrite length_app; simpl; lia).
  rewrite list_lookup_middle by reflexivity.
  unfold write_param, Py.modify, Py.ret; simpl.
  now rewrite insert_two_last.
Qed.

Lemma lookup_two_last {A : Type} (l : list A) (x y : A) :
  (l ++ [x; y]) !! length l = Some x /\
  (l ++ [x; y]) !! S (length l) = Some y.
Proof.
  split.
  - now apply list_lookup_middle.
  - rewrite lookup_app_r by lia.
    replace (S (length l) - length l)%nat with 1%nat by lia. reflexivity.
Qed.

Lemma from_bounds_only_run (low_value high_value : Q) (name : string)
    (s : store) :
  ADRUniform.from_bounds_only low_value high_value name s
  = (Py.Ok (length (dists s)),
     mkStore
       (params s ++
        [ADRParam.mk low_value (None, Some ((low_value + high_value) / 2))
           ADRParam.default_delta ADRParam.default_pq_size []
           ADRParam.default_boundary_sample_weight false (name +:+ "_l");
         ADRParam.mk high_value (Some ((low_value + high_value) / 2), None)
           ADRParam.default_delta ADRParam.default_pq_size []
           ADRParam.default_boundary_sample_weight false (name +:+ "_r")])
       (dists s ++
        [ADRDist.mk None
           (Py.VList [Py.VParam (length (params s));
                      Py.VParam (S (length (params s)))])
           name
           (ADRDist.Uniform (length (params s)) (S (length (params s))))])
       (random s)).
Proof. apply uniform_of_two. Qed.

Lemma centered_around_run (low start high delta : Q) (pq_size : Z)
    (boundary_sample_weight : Q) (name : string) (s : store) :
  ADRUniform.centered_around low start high delta pq_size
    boundary_sample_weight name s
  = (Py.Ok (length (dists s)),
     mkStore
       (params s ++
        [ADRParam.mk start (Some low, Some start) (- delta) pq_size []
           boundary_sample_weight false (name +:+ "_l");
         ADRParam.mk start (Some start, Some high) delta pq_size []
           boundary_sample_weight false (name +:+ "_r")])
       (dists s ++
        [ADRDist.mk None
           (Py.VList [Py.VParam (length (params s));
                      Py.VParam (S (length (params s)))])
           name
           (ADRDist.Uniform (length (params s)) (S (length (params s))))])
       (random s)).
Proof. apply uniform_of_two. Qed.

Lemma fixed_value_run (value : Q) (name : string) (s : store) :
  ADRUniform.fixed_value value name s
  = (Py.Ok (length (dists s)),
     mkStore
       (params s ++
        [ADRParam.mk value (None, None) 0 0 [] 0 false (name +:+ "_l");
         ADRParam.mk value (None, None) 0 0 [] 0 false (name +:+ "_r")])
       (dists s ++
        [ADRDist.mk None
           (Py.VList [Py.VParam (length (params s));
                      Py.VParam (S (length (params s)))])
           name
           (ADRDist.Uniform (length (params s)) (S (length (params s))))])
       (random s)).
Proof. apply uniform_of_two. Qed.

End FactoryFacts.

Section FactoryInvariants.
Context `{Exp}.
Local Open Scope Q_scope.

(** X9. [from_bounds_only(low, high)] with [low <= high] always succeeds,
    and the two bounds it creates never cross: after any calls on any
    engine over the resulting store, the low parameter is at most the
    midpoint and the high parameter at least the midpoint. *)
Theorem from_bounds_only_never_cross
    (low_value high_value : Q) (name : string) (s : store) (e : ADR.t)
    (calls : list engine_call) :
  low_value <= high_value ->
  fst (ADRUniform.from_bounds_only low_value high_value name s)
  = Py.Ok (length (dists s)) /\
  exists pl ph,
    params (snd (after_engine_calls
                   (e, snd (ADRUniform.from_bounds_only
                              low_value high_value name s)) calls))
      !! length (params s) = Some pl /\
    params (snd (after_engine_calls
                   (e, snd (ADRUniform.from_bounds_only
                              low_value high_value name s)) calls))
      !! S (length (params s)) = Some ph /\
    ADRParam.value pl <= (low_value + high_value) / 2 /\
    (low_value + high_value) / 2 <= ADRParam.value ph /\
    ADRParam.value pl <= ADRParam.value ph.
Proof.
  intros Hle. rewrite from_bounds_only_run. split; [reflexivity|].
  cbn [snd]. set (s1 := mkStore _ _ _).
  set (mid := (low_value + high_value) / 2).
  assert (Hmid : low_value <= mid /\ mid <= high_value).
  { unfold mid. split.
    - apply Qle_shift_div_l; lra.
    - apply Qle_shift_div_r; lra. }
  destruct (lookup_two_last (params s)
              (ADRParam.mk low_value (None, Some mid)
                 ADRParam.default_delta ADRParam.default_pq_size []
                 ADRParam.default_boundary_sample_weight false
                 (name +:+ "_l"))
              (ADRParam.mk high_value (Some mid, None)
                 ADRParam.default_delta ADRParam.default_pq_size []
                 ADRParam.default_boundary_sample_weight false
                 (name +:+ "_r"))) as [Hl Hh].
  assert (Bl : bounded_at (length (params s)) (None, Some mid) s1).
  { eexists. split; [exact Hl|]. split; [reflexivity|]. split; simpl; tauto. }
  assert (Bh : bounded_at (S (length (params s))) (Some mid, None) s1).
  { eexists. split; [exact Hh|]. split; [reflexivity|]. split; simpl; tauto. }
  destruct (bounded_after_engine_calls _ _ (e, s1) calls Bl)
    as (pl & Hpl & _ & _ & Hwl).
  destruct (bounded_after_engine_calls _ _ (e, s1) calls Bh)
    as (ph & Hph & _ & Hwh & _).
  simpl in Hwl, Hwh. exists pl, ph. repeat split; auto. lra.
Qed.

(** X10. [centered_around(low, start, high)] with
    [low <= start <= high] always succeeds and starts with both bounds at
    [start], so with width 0; after any calls on any engine over the
    resulting store the low parameter is within [low, start] and the high
    parameter within [start, high]. *)
Theorem centered_around_stays_centered
    (low start high delta : Q) (pq_size : Z) (weight : Q) (name : string)
    (s : store) (e : ADR.t) (calls : list engine_call) :
  low <= start -> start <= high ->
  fst (ADRUniform.centered_around low start high delta pq_size weight name s)
  = Py.Ok (length (dists s)) /\
  fst (ADR.width (length (dists s))
         (snd (ADRUniform.centered_around low start high delta pq_size
                 weight name s)))
  = Py.Ok (start - start) /\
  exists pl ph,
    params (snd (after_engine_calls
                   (e, snd (ADRUniform.centered_around low start high delta
                              pq_size weight name s)) calls))
      !! length (params s) = Some pl /\
    params (snd (after_engine_calls
                   (e, snd (ADRUniform.centered_around low start high delta
                              pq_size weight name s)) calls))
      !! S (length (params s)) = Some ph /\
    low <= ADRParam.value pl /\ ADRParam.value pl <= start /\
    start <= ADRParam.value ph /\ ADRParam.value ph <= high.
Proof.
  intros Hl Hh. rewrite centered_around_run. split; [reflexivity|].
  cbn [snd]. set (s1 := mkStore _ _ _).
  destruct (lookup_two_last (params s)
              (ADRParam.mk start (Some low, Some start) (- delta) pq_size []
                 weight false (name +:+ "_l"))
              (ADRParam.mk start (Some start, Some high) delta pq_size []
                 weight false (name +:+ "_r"))) as [Hpl Hph].
  split.
  - assert (Hd1 : dists s1 !! length (dists s)
                  = Some (ADRDist.mk None
                            (Py.VList [Py.VParam (length (params s));
                                       Py.VParam (S (length (params s)))])
                            name
                            (ADRDist.Uniform (length (params s))
                                             (S (length (params s))))))
      by now apply list_lookup_middle.
    change (params s1 !! length (params s) = Some
              (ADRParam.mk start (Some low, Some start) (- delta) pq_size []
                 weight false (name +:+ "_l"))) in Hpl.
    change (params s1 !! S (length (params s)) = Some
              (ADRParam.mk start (Some start, Some high) delta pq_size []
                 weight false (name +:+ "_r"))) in Hph.
    unfold ADR.width.
    rewrite (mbind_ok _ _ _ _ _ (read_dist_ok _ _ _ Hd1)).
    cbn [ADRDist.own].
    rewrite (mbind_ok _ _ _ _ _ (read_param_ok _ _ _ Hph)).
    rewrite (mbind_ok _ _ _ _ _ (read_param_ok _ _ _ Hpl)).
    reflexivity.
  - assert (Bl : bounded_at (length (params s)) (Some low, Some start) s1).
    { eexists. split; [exact Hpl|]. split; [reflexivity|].
      split; simpl; lra. }
    assert (Bh : bounded_at (S (length (params s))) (Some start, Some high) s1).
    { eexists. split; [exact Hph|]. split; [reflexivity|].
      split; simpl; lra. }
    destruct (bounded_after_engine_calls _ _ (e, s1) calls Bl)
      as (pl & Hl' & _ & Hwl1 & Hwl2).
    destruct (bounded_after_engine_calls _ _ (e, s1) calls Bh)
      as (ph & Hh' & _ & Hwh1 & Hwh2).
    simpl in *. exists pl, ph. repeat split; auto.
Qed.


End FactoryInvariants.

Lemma centered_around_stays_centered_witness :
  (0 <= 5)%Q /\ (5 <= 10)%Q /\
  fst (ADR.width 0%nat
         (snd (ADRUniform.centered_around 0 5 10 (2 # 100) 240 1 "c"
                 empty_store)))
  = Py.Ok (5 - 5)%Q.
Proof.
  assert (H1 : (0 <= 5)%Q) by lra. assert (H2 : (5 <= 10)%Q) by lra.
  split; [exact H1|]. split; [exact H2|].
  exact (proj1 (proj2 (@centered_around_stays_centered unit_exp
                         0 5 10 (2 # 100) 240 1 "c" empty_store
                         (fst weighted_engine) [] H1 H2))).
Defined.


Lemma from_bounds_only_never_cross_witness :
  (1 <= 3)%Q /\
  exists pl ph,
    params (snd (@after_engine_calls unit_exp
                   (fst weighted_engine,
                    snd (ADRUniform.from_bounds_only 1 3 "b" empty_store))
                   [EUpdate (-5) (Some 0%Z); EUpdate 20 (Some 1%Z)]))
      !! 0%nat = Some pl /\
    params (snd (@after_engine_calls unit_exp
                   (fst weighted_engine,
                    snd (ADRUniform.from_bounds_only 1 3 "b" empty_store))
                   [EUpdate (-5) (Some 0%Z); EUpdate 20 (Some 1%Z)]))
      !! 1%nat = Some ph /\
    (ADRParam.value pl <= ADRParam.value ph)%Q.
Proof.
  assert (Hle : (1 <= 3)%Q) by lra.
  split; [exact Hle|].
  destruct (@from_bounds_only_never_cross unit_exp 1 3 "b" empty_store
              (fst weighted_engine)
              [EUpdate (-5) (Some 0%Z); EUpdate 20 (Some 1%Z)] Hle)
    as (_ & pl & ph & Hl & Hh & _ & _ & Hc).
  exists pl, ph. auto.
Defined.

(** ** Running a uniform distribution *)

Section UniformRun.
Context `{Exp}.
Import Heap.
Local Open Scope Q_scope.

Lemma sampled_value (s s' : store) (r : Py.pref) (p : ADRParam.t) :
  sampled s s' -> params s !! r = Some p ->
  exists p', params s' !! r = Some p' /\
             ADRParam.value p' = ADRParam.value p.
Proof.
  intros Hs Hr. destruct (sampled_lookup _ _ r p Hs Hr) as (p' & Hr' & Hc & _).
  exists p'. split; [exact Hr'|].
  change (ADRParam.value (clear_flag p') = ADRParam.value (clear_flag p)).
  now rewrite Hc.
Qed.

Lemma sampled_dist (s s' : store) (d : Py.dref) (x : ADRDist.t) :
  sampled s s' -> dists s !! d = Some x ->
  exists x', dists s' !! d = Some x' /\ dist_sampled x x'.
Proof.
  intros (_ & Hd & _) Hx. eapply Forall2_lookup_l; eauto.
Qed.

Lemma consume_flags_run (d : Py.dref) (rs : list Py.pref) (s : store) :
  Forall (fun r => is_Some (params s !! r)) rs ->
  is_Some (dists s !! d) ->
  exists s1,
    Py.for_each (map Py.VParam rs) (ADRUniform.consume_flag d) s
    = (Py.Ok tt, s1) /\
    sampled s s1 /\ random s1 = random s.
Proof.
  revert s. induction rs as [|r rs IH]; intros s Hrs Hd.
  - exists s. split; [reflexivity|]. split; [apply sampled_refl | reflexivity].
  - inversion Hrs as [|? ? [p Hp] Hrs']; subst. destruct Hd as [self Hd].
    destruct (consume_flag_spec d r s p self Hp Hd) as [ls E].
    pose proof (sampled_consume_flag d (Py.VParam r) s) as Hs.
    rewrite E in Hs. cbn [snd] in Hs.
    set (s0 := mkStore _ _ _) in *.
    destruct (IH s0) as (s1 & E1 & Hs1 & Hr1).
    + eapply Forall_impl; [exact Hrs'|]. intros r' [p' Hp'].
      destruct (sampled_lookup _ _ r' p' Hs Hp') as (q & Hq & _). eauto.
    + destruct (sampled_dist _ _ d self Hs Hd) as (x' & Hx' & _). eauto.
    + exists s1. split; [|split].
      * cbn [map Py.for_each]. now rewrite (mbind_ok _ _ _ _ _ E).
      * eapply sampled_trans; eauto.
      * now rewrite Hr1.
Qed.

(** What an episode sample of a uniform distribution returns, for any
    state of the generator. *)
Lemma uniform_run (s : store) (d : Py.dref) (phi_l phi_h : Py.pref)
    (self : ADRDist.t) (l h : ADRParam.t) :
  dists s !! d = Some self ->
  ADRDist.own self = ADRDist.Uniform phi_l phi_h ->
  ADRDist.parameters self = Py.VList [Py.VParam phi_l; Py.VParam phi_h] ->
  params s !! phi_l = Some l ->
  params s !! phi_h = Some h ->
  exists s',
    Dispatch.episode_sample d s
    = (Py.Ok (ADRParam.value l + (ADRParam.value h - ADRParam.value l)
                                 * Np.uniforms (random s) (Np.u_next (random s))),
       s').
Proof.
  intros Hd Hown Hps Hl Hh.
  unfold Dispatch.episode_sample, Dispatch.recursion_limit.
  rewrite (episode_sample_at_S _ _ _ _ Hd), Hown.
  unfold ADRUniform.episode_sample.
  rewrite (mbind_ok _ _ _ _ _ (read_dist_ok _ _ _ Hd)), Hps.
  rewrite (mbind_ok (Py.lift _) _ s s [Py.VParam phi_l; Py.VParam phi_h]
             eq_refl).
  destruct (consume_flags_run d [phi_l; phi_h] s) as (s1 & E1 & Hs1 & Hr1);
    [repeat constructor; eauto | eauto |].
  cbn [map] in E1. rewrite (mbind_ok _ _ _ _ _ E1).
  destruct (sampled_value _ _ _ _ Hs1 Hl) as (l1 & Hl1 & Hvl).
  destruct (sampled_value _ _ _ _ Hs1 Hh) as (h1 & Hh1 & Hvh).
  destruct (sampled_dist _ _ _ _ Hs1 Hd) as (x1 & Hx1 & _).
  rewrite (mbind_ok _ _ _ _ _ (read_param_ok _ _ _ Hl1)).
  rewrite (mbind_ok _ _ _ _ _ (read_param_ok _ _ _ Hh1)).
  unfold ADRParam.get_value. rewrite Hvl, Hvh.
  unfold draw, Np.uniform, Np.random_sample, Py.mbind at 1.
  rewrite Hr1. cbn [fst snd].
  set (x := ADRParam.value l + _).
  set (s2 := mkStore _ _ _).
  assert (Hx2 : dists s2 !! d = Some x1) by exact Hx1.
  unfold set_last_sample.
  rewrite mbind_assoc, (mbind_ok _ _ _ _ _ (read_dist_ok _ _ _ Hx2)).
  unfold write_dist, Py.modify, Py.mbind at 1.
  set (s3 := mkStore _ _ _).
  assert (Hx3 : dists s3 !! d
                = Some (ADRDist.set_last_sample x1 (Some x))).
  { unfold s3; simpl. apply list_lookup_insert_eq.
    eapply lookup_lt_Some; eauto. }
  rewrite (mbind_ok _ _ _ _ _ (read_dist_ok _ _ _ Hx3)).
  exists s3. reflexivity.
Qed.

End UniformRun.

Section FixedValue.
Context `{Exp}.
Local Open Scope Q_scope.

(** X12. A distribution made by [fixed_value(value)] always samples
    [value]: after any calls on any engine over the store it was created
    in, and for any state of the generator, its episode sample returns a
    number equal to [value]. *)
Theorem fixed_value_always_samples_value
    (value : Q) (name : string) (s : store) (e : ADR.t)
    (calls : list engine_call) :
  exists x s',
    Dispatch.episode_sample (length (dists s))
      (snd (after_engine_calls
              (e, snd (ADRUniform.fixed_value value name s)) calls))
    = (Py.Ok x, s') /\
    x == value.
Proof.
  rewrite fixed_value_run. cbn [snd]. set (s1 := mkStore _ _ _).
  destruct (stepped_after_engine_calls (e, s1) calls) as [Hp Hd].
  cbn [snd] in Hp, Hd.
  set (s2 := snd (after_engine_calls (e, s1) calls)) in *.
  destruct (lookup_two_last (params s)
              (ADRParam.mk value (None, None) 0 0 [] 0 false (name +:+ "_l"))
              (ADRParam.mk value (None, None) 0 0 [] 0 false (name +:+ "_r")))
    as [Hl Hh].
  change (params s1 !! length (params s) = Some
            (ADRParam.mk value (None, None) 0 0 [] 0 false (name +:+ "_l")))
    in Hl.
  change (params s1 !! S (length (params s)) = Some
            (ADRParam.mk value (None, None) 0 0 [] 0 false (name +:+ "_r")))
    in Hh.
  destruct (Forall2_lookup_l _ _ _ _ _ Hp Hl)
    as (pl & Hpl & _ & _ & _ & _ & _ & _ & Hvl).
  destruct (Forall2_lookup_l _ _ _ _ _ Hp Hh)
    as (ph & Hph & _ & _ & _ & _ & _ & _ & Hvh).
  assert (Hd1 : dists s1 !! length (dists s)
                = Some (ADRDist.mk None
                          (Py.VList [Py.VParam (length (params s));
                                     Py.VParam (S (length (params s)))])
                          name
                          (ADRDist.Uniform (length (params s))
                                           (S (length (params s))))))
    by now apply list_lookup_middle.
  destruct (Forall2_lookup_l _ _ _ _ _ Hd Hd1) as (x' & Hx' & Hps & _ & Hown).
  cbn [ADRDist.parameters ADRDist.own] in Hps, Hown.
  destruct (uniform_run s2 _ _ _ x' pl ph Hx' Hown Hps Hpl Hph) as [s' E].
  eexists _, s'. split; [exact E|].
  cbn [ADRParam.delta ADRParam.value ADRParam.val_bound] in Hvl, Hvh.
  rewrite Hvl, Hvh; try reflexivity; try (split; exact I). ring.
Qed.

End FixedValue.

(** ** Boundary sampling: degenerate weights and the recorded index *)

Section BoundaryMore.
Context `{Exp}.
Import Heap.
Local Open Scope Q_scope.

Lemma has_weight_lists (s : store) (ps : list Py.pyval) (ws ws' : list Q) :
  Forall2 (has_weight s) ps ws -> Forall2 (has_weight s) ps ws' -> ws = ws'.
Proof.
  intros Hw. revert ws'. induction Hw as [|v w ps ws Hv Hw IH];
    intros ws' Hw'; inversion Hw'; subst; [reflexivity|].
  f_equal; [eapply has_weight_fun; eauto | now apply IH].
Qed.

(** X13. Boundary sampling cannot select when the weights sum to zero:
    with boundary sampling enabled and flattened parameters whose weights
    sum to 0 (for instance all fixed, or none at all), [boundary_sample]
    raises [ValueError] and changes neither the engine nor the store. *)
Theorem boundary_sample_zero_weights_raises
    (e : ADR.t) (s : store) (ws : list Q) :
  ADR.do_boundary_sample e = true ->
  Forall2 (has_weight s) (ADR.parameters e) ws ->
  Np.sum ws == 0 ->
  ADR.boundary_sample (e, s) = (Py.Raise Py.ValueError, (e, s)).
Proof.
  intros Hdo Hws Hsum. unfold ADR.boundary_sample.
  rewrite (mbind_ok ADR.self_ _ (e, s) (e, s) e eq_refl), Hdo.
  destruct (weights_run (ADR.parameters e) (e, s))
    as [(ws' & Ew & HF)|(err & Ew & Hbad)]; simpl in *.
  - rewrite (has_weight_lists _ _ _ _ HF Hws) in Ew.
    rewrite (mbind_ok _ _ _ _ _ Ew). cbv zeta.
    unfold ADR.normalise.
    apply Qeq_bool_iff in Hsum. rewrite Hsum. reflexivity.
  - exfalso. apply Hbad. clear -Hws.
    induction Hws; constructor; eauto.
Qed.

Lemma returns_final_bind {A : Type} (c : Py.M ADR.state A)
    (k : A -> Py.M ADR.state (list Q * option Z)) :
  (forall a, returns_final_idx (k a)) -> returns_final_idx (Py.mbind c k).
Proof.
  intros Hk st lam io st'. unfold Py.mbind.
  destruct (c st) as [[a|err] st1]; [|discriminate]. apply Hk.
Qed.

Lemma returns_final_self (lam : list Q) :
  returns_final_idx
    (self <- ADR.self_ ;; Py.ret (lam, ADR.sample_idx self)).
Proof. intros st lam' io st'. cbv. now intros [= _ <- <-]. Qed.

Lemma boundary_sample_returns_final : returns_final_idx ADR.boundary_sample.
Proof.
  unfold ADR.boundary_sample.
  apply returns_final_bind. intros self.
  destruct (ADR.do_boundary_sample self);
    repeat first [ apply returns_final_self
                 | apply returns_final_bind; intros ? ].
Qed.

(** X14. The index a boundary sample returns is the one it leaves in
    [sample_idx], in both modes; so reporting performance right after it
    without an index is the same call as reporting it with the returned
    index. *)
Theorem update_defaults_to_boundary_index
    (st st' : ADR.state) (lam : list Q) (idx : option Z) (performance : Q) :
  ADR.boundary_sample st = (Py.Ok (lam, idx), st') ->
  idx = ADR.sample_idx (fst st') /\
  ADR.update performance None st' = ADR.update performance idx st'.
Proof.
  intros Hrun. pose proof (boundary_sample_returns_final _ _ _ _ Hrun) as Hi.
  split; [exact Hi|].
  unfold ADR.update.
  rewrite !(mbind_ok ADR.self_ _ st' st' (fst st') eq_refl), <- Hi.
  destruct idx; reflexivity.
Qed.

End BoundaryMore.

Lemma boundary_sample_zero_weights_raises_witness :
  ADR.do_boundary_sample (fst joint_engine) = true /\
  @ADR.boundary_sample unit_exp (fst joint_engine, snd joint_engine)
  = (Py.Raise Py.ValueError, (fst joint_engine, snd joint_engine)).
Proof.
  assert (Hdo : ADR.do_boundary_sample (fst joint_engine) = true)
    by (vm_compute; reflexivity).
  assert (Eps : ADR.parameters (fst joint_engine)
                = [Py.VParam 0%nat; Py.VParam 1%nat; Py.VParam 2%nat;
                   Py.VParam 3%nat; Py.VParam 4%nat; Py.VParam 5%nat])
    by (vm_compute; reflexivity).
  assert (Hws : Forall2 (has_weight (snd joint_engine))
                  (ADR.parameters (fst joint_engine))
                  [0; 0; 0; 0; 0; 0]%Q).
  { rewrite Eps.
    repeat constructor;
      (eexists _, _; split; [reflexivity|]; split;
       [vm_compute; reflexivity | reflexivity]). }
  split; [exact Hdo|].
  exact (@boundary_sample_zero_weights_raises unit_exp (fst joint_engine)
           (snd joint_engine) [0; 0; 0; 0; 0; 0]%Q Hdo Hws (Qeq_refl 0)).
Defined.

Lemma update_defaults_to_boundary_index_witness :
  fst (@ADR.boundary_sample unit_exp weighted_engine)
  = Py.Ok ([1 + (3 - 1) * (1 # 2); 5 + (7 - 5) * (1 # 2)]%Q, Some 2%Z) /\
  ADR.update 20 None (snd (@ADR.boundary_sample unit_exp weighted_engine))
  = ADR.update 20 (Some 2%Z)
      (snd (@ADR.boundary_sample unit_exp weighted_engine)).
Proof.
  assert (E : @ADR.boundary_sample unit_exp weighted_engine
              = (Py.Ok ([1 + (3 - 1) * (1 # 2); 5 + (7 - 5) * (1 # 2)]%Q,
                        Some 2%Z),
                 snd (@ADR.boundary_sample unit_exp weighted_engine))).
  { apply injective_projections; [vm_compute; reflexivity|].
    cbn [snd]. reflexivity. }
  split; [vm_compute; reflexivity|].
  exact (proj2 (@update_defaults_to_boundary_index unit_exp weighted_engine
                  _ _ _ 20 E)).
Defined.

(** ** Episode samples of an engine over uniform distributions *)

Section EngineEpisode.
Context `{Exp}.
Import Heap.
Local Open Scope Q_scope.

Lemma uniform_at_sampled (s s' : store) (d : Py.dref) (lo hi : Q) :
  sampled s s' -> uniform_at s d lo hi -> uniform_at s' d lo hi.
Proof.
  intros Hs (x & l & h & pl & ph & Hx & Hown & Hps & Hl & Hh & <- & <-).
  destruct (sampled_dist _ _ _ _ Hs Hx) as (x' & Hx' & Hp' & _ & Ho').
  destruct (sampled_value _ _ _ _ Hs Hl) as (pl' & Hl' & Hvl).
  destruct (sampled_value _ _ _ _ Hs Hh) as (ph' & Hh' & Hvh).
  exists x', l, h, pl', ph'. repeat split; auto; congruence.
Qed.



End EngineEpisode.


(** ** The registry on distinct names *)

Section RegistryFacts.
Import Heap.

Lemma register_fresh (ph_val : Z) (m : gmap string Py.dref) (d : Py.dref)
    (s : store) (x : ADRDist.t) :
  dists s !! d = Some x ->
  m !! ADRDist.name x = None ->
  ADR.register ph_val m d s = (Py.Ok (<[ADRDist.name x := d]> m), s).
Proof.
  intros Hx Hm. unfold ADR.register.
  rewrite (mbind_ok _ _ _ _ _ (read_dist_ok _ _ _ Hx)).
  rewrite bool_decide_eq_false_2 by (rewrite Hm; apply is_Some_None).
  rewrite (mbind_ok (Py.ret tt) _ s s tt eq_refl).
  now rewrite (mbind_ok _ _ _ _ _ (read_dist_ok _ _ _ Hx)).
Qed.

Lemma construct_dict_from_distinct (ph_val : Z) (ds : list Py.dref)
    (names : list string) (m0 : gmap string Py.dref) (s : store) :
  Forall2 (fun d n => exists x, dists s !! d = Some x /\ ADRDist.name x = n)
          ds names ->
  NoDup names ->
  (forall n, n ∈ names -> m0 !! n = None) ->
  exists m,
    ADR.construct_dict_from ph_val m0 ds s = (Py.Ok m, s) /\
    (forall i d n, ds !! i = Some d -> names !! i = Some n ->
                   m !! n = Some d) /\
    (forall k, k ∉ names -> m !! k = m0 !! k) /\
    size m = (size m0 + length ds)%nat.
Proof.
  intros Hds. revert m0.
  induction Hds as [|d n ds names (x & Hx & Hn) Hds IH]; intros m0 Hnd Hfresh.
  - exists m0. split; [reflexivity|]. split; [intros i d n Hi; discriminate|].
    split; [reflexivity | simpl; lia].
  - apply NoDup_cons in Hnd as [Hnotin Hnd]. subst n.
    assert (Hm0 : m0 !! ADRDist.name x = None)
      by (apply Hfresh; left).
    destruct (IH (<[ADRDist.name x := d]> m0) Hnd) as (m & E & Hin & Hout & Hsz).
    { intros n Hn. rewrite lookup_insert_ne.
      - apply Hfresh. now right.
      - intros <-. contradiction. }
    exists m. split; [|split; [|split]].
    + cbn [ADR.construct_dict_from].
      now rewrite (mbind_ok _ _ _ _ _ (register_fresh _ _ _ _ _ Hx Hm0)).
    + intros [|i] d' n'; simpl.
      * intros [= <-] [= <-]. rewrite Hout by exact Hnotin.
        apply lookup_insert_eq.
      * apply Hin.
    + intros k Hk. rewrite Hout.
      * apply lookup_insert_ne. intros <-. apply Hk. left.
      * intros Hk'. apply Hk. now right.
    + rewrite Hsz, map_size_insert_None by exact Hm0. simpl. lia.
Qed.

(** X16. When the distributions given to [construct_dict] have pairwise
    distinct names, nothing is renamed: the store is unchanged, every
    distribution is found in the registry under its own name, and the
    registry has exactly one entry per distribution. *)
Theorem construct_dict_distinct_names
    (ds : list Py.dref) (names : list string) (s : store) :
  Forall2 (fun d n => exists x, dists s !! d = Some x /\ ADRDist.name x = n)
          ds names ->
  NoDup names ->
  exists m,
    ADR.construct_dict ds s = (Py.Ok m, s) /\
    (forall i d n, ds !! i = Some d -> names !! i = Some n ->
                   m !! n = Some d) /\
    (forall k, k ∉ names -> m !! k = None) /\
    size m = length ds.
Proof.
  intros Hds Hnd.
  destruct (construct_dict_from_distinct 0 ds names ∅ s Hds Hnd)
    as (m & E & Hin & Hout & Hsz).
  { intros n _. apply lookup_empty. }
  exists m. split; [exact E|]. split; [exact Hin|]. split.
  - intros k Hk. rewrite Hout by exact Hk. apply lookup_empty.
  - rewrite Hsz, map_size_empty. reflexivity.
Qed.

End RegistryFacts.

Lemma construct_dict_distinct_names_witness :
  exists m,
    ADR.construct_dict [0; 1]%nat weighted_store = (Py.Ok m, weighted_store) /\
    m !! "a"%string = Some 0%nat /\ m !! "b"%string = Some 1%nat /\
    size m = 2%nat.
Proof.
  assert (Hds : Forall2
                  (fun d n => exists x, dists weighted_store !! d = Some x /\
                                        ADRDist.name x = n)
                  [0; 1]%nat ["a"%string; "b"%string]).
  { repeat constructor;
      (eexists; split; [vm_compute; reflexivity | reflexivity]). }
  assert (Hnd : NoDup ["a"%string; "b"%string]).
  { repeat constructor; rewrite ?list_elem_of_In; simpl; intuition discriminate. }
  destruct (construct_dict_distinct_names [0; 1]%nat _ weighted_store Hds Hnd)
    as (m & E & Hin & _ & Hsz).
  exists m. split; [exact E|].
  split; [exact (Hin 0%nat 0%nat "a"%string eq_refl eq_refl)|].
  split; [exact (Hin 1%nat 1%nat "b"%string eq_refl eq_refl) | exact Hsz].
Defined.

(** ** The constructor of the engine *)

Section RenamedFacts.
Import Heap.

Lemma param_renamed_refl (p : ADRParam.t) : param_renamed p p.
Proof. reflexivity. Qed.

Lemma dist_renamed_refl (x : ADRDist.t) : dist_renamed x x.
Proof. repeat split. Qed.

Lemma renamed_refl (s : store) : renamed s s.
Proof.
  split; [|split].
  - apply Forall2_diag, param_renamed_refl.
  - apply Forall2_diag, dist_renamed_refl.
  - reflexivity.
Qed.

Lemma renamed_trans (a b c : store) : renamed a b -> renamed b c -> renamed a c.
Proof.
  intros (A1 & A2 & A3) (B1 & B2 & B3). split; [|split].
  - eapply Forall2_compose; [|exact A1|exact B1].
    unfold param_renamed. intros; congruence.
  - eapply Forall2_compose; [|exact A2|exact B2].
    intros x y z (X1 & X2 & X3) (Y1 & Y2 & Y3). repeat split; congruence.
  - congruence.
Qed.

Lemma renamed_read_param (r : Py.pref) : preserves renamed (read_param r).
Proof.
  intros s. unfold read_param. destruct (params s !! r); apply renamed_refl.
Qed.

Lemma renamed_read_dist (d : Py.dref) : preserves renamed (read_dist d).
Proof.
  intros s. unfold read_dist. destruct (dists s !! d); apply renamed_refl.
Qed.

Lemma renamed_set_name (d : Py.dref) (n : string) :
  preserves renamed (set_name d n).
Proof.
  intros s. unfold set_name, Py.mbind, read_dist.
  destruct (dists s !! d) as [self|] eqn:Hd; [|apply renamed_refl].
  simpl. split; [|split]; simpl.
  - apply Forall2_diag, param_renamed_refl.
  - eapply Forall2_insert_self; eauto using dist_renamed_refl.
    repeat split.
  - reflexivity.
Qed.

Lemma renamed_name_param (r : Py.pref) (n : string) :
  preserves renamed (p <- read_param r ;; write_param r (ADRParam.set_name p n)).
Proof.
  intros s. unfold Py.mbind, read_param.
  destruct (params s !! r) as [p|] eqn:Hp; [|apply renamed_refl].
  simpl. split; [|split]; simpl.
  - eapply Forall2_insert_self; eauto using param_renamed_refl.
    reflexivity.
  - apply Forall2_diag, dist_renamed_refl.
  - reflexivity.
Qed.

Lemma renamed_update_boundary_names (d : Py.dref) :
  preserves renamed (ADRUniform.update_boundary_names d).
Proof.
  unfold ADRUniform.update_boundary_names.
  apply (preserves_bind renamed renamed_trans); [apply renamed_read_dist|].
  intros self. destruct (ADRDist.own self);
    try apply (preserves_raise renamed renamed_refl).
  intros s. rewrite <- mbind_assoc.
  revert s. apply (preserves_bind renamed renamed_trans).
  - apply renamed_name_param.
  - intros _. apply renamed_name_param.
Qed.

Lemma renamed_register (ph_val : Z) (m : gmap string Py.dref) (d : Py.dref) :
  preserves renamed (ADR.register ph_val m d).
Proof.
  unfold ADR.register.
  apply (preserves_bind renamed renamed_trans); [apply renamed_read_dist|].
  intros x. apply (preserves_bind renamed renamed_trans).
  - destruct (bool_decide _).
    + apply (preserves_bind renamed renamed_trans);
        [apply renamed_set_name|].
      intros _. apply renamed_update_boundary_names.
    + apply (preserves_ret renamed renamed_refl).
  - intros _.
    apply (preserves_bind renamed renamed_trans); [apply renamed_read_dist|].
    intros y. apply (preserves_ret renamed renamed_refl).
Qed.

Lemma renamed_construct_dict_from (ph_val : Z) (ds : list Py.dref)
    (m : gmap string Py.dref) :
  preserves renamed (ADR.construct_dict_from ph_val m ds).
Proof.
  revert m. induction ds as [|d ds IH]; intros m; simpl.
  - apply (preserves_ret renamed renamed_refl).
  - apply (preserves_bind renamed renamed_trans);
      [apply renamed_register | intros m'; apply IH].
Qed.

Lemma collect_parameters_inv (ds : list Py.dref) (acc ps : list Py.pyval)
    (s s' : store) :
  ADR.collect_parameters acc ds s = (Py.Ok ps, s') ->
  s' = s /\
  exists pss,
    Forall2 (fun d items => exists x, dists s !! d = Some x /\
                                      ADRDist.parameters x = Py.VList items)
            ds pss /\
    ps = acc ++ concat pss.
Proof.
  revert acc. induction ds as [|d ds IH]; intros acc; simpl.
  - intros [= <- <-]. split; [reflexivity|]. exists [].
    split; [constructor | now rewrite app_nil_r].
  - unfold get_parameters, Py.mbind at 1 2, read_dist.
    destruct (dists s !! d) as [x|] eqn:Hx; [|discriminate].
    unfold Py.ret at 1. unfold Py.mbind at 1, Py.lift.
    destruct (ADRDist.parameters x) as [|r|items|d' n] eqn:Hps;
      try discriminate.
    simpl. intros E. destruct (IH _ E) as (-> & pss & Hds & ->).
    split; [reflexivity|]. exists (items :: pss). split.
    + constructor; [now exists x | exact Hds].
    + simpl. now rewrite app_assoc.
Qed.

Lemma collect_parameters_kept (ds : list Py.dref) (acc : list Py.pyval)
    (s : store) :
  snd (ADR.collect_parameters acc ds s) = s.
Proof.
  revert acc. induction ds as [|d ds IH]; intros acc; simpl; [reflexivity|].
  unfold get_parameters, Py.mbind at 1 2, read_dist.
  destruct (dists s !! d) as [x|]; [|reflexivity].
  unfold Py.ret at 1. unfold Py.mbind at 1, Py.lift.
  destruct (ADRDist.parameters x); try reflexivity. apply IH.
Qed.

(** X17. Constructing an engine, whether the constructor returns or raises,
    changes nothing in the store but names: every parameter keeps its
    value, bounds, delta, queue, capacity, weight and flag, every
    distribution keeps its class, its parameter list and its last sample,
    and the generator is not used. *)
Theorem init_only_renames (ds : list Py.dref) (p_thresh : Q * Q) (s : store) :
  renamed s (snd (ADR.init ds p_thresh s)).
Proof.
  unfold ADR.init, Py.mbind.
  pose proof (renamed_construct_dict_from 0 ds ∅ s) as H.
  fold (ADR.construct_dict ds) in H.
  destruct (ADR.construct_dict ds s) as [[m|err] s1]; simpl in *; [|exact H].
  pose proof (collect_parameters_kept ds [] s1) as K.
  destruct (ADR.collect_parameters [] ds s1) as [[ps|err] s2];
    simpl in *; now subst s2.
Qed.

(** X18. When the constructor of the engine returns, the parameter list of
    the engine is the concatenation, in order, of the parameter lists of
    the distributions it was given; the list of distributions and the
    thresholds are the arguments, no index is selected yet and boundary
    sampling is on. *)
Theorem init_flattens_parameters (ds : list Py.dref) (p_thresh : Q * Q)
    (s s' : store) (e : ADR.t) :
  ADR.init ds p_thresh s = (Py.Ok e, s') ->
  exists pss,
    Forall2 (fun d items => exists x, dists s !! d = Some x /\
                                      ADRDist.parameters x = Py.VList items)
            ds pss /\
    ADR.parameters e = concat pss /\
    ADR.distributions e = ds /\
    ADR.p_thresh e = p_thresh /\
    ADR.sample_idx e = None /\
    ADR.do_boundary_sample e = true.
Proof.
  unfold ADR.init, Py.mbind.
  pose proof (renamed_construct_dict_from 0 ds ∅ s) as H.
  fold (ADR.construct_dict ds) in H.
  destruct (ADR.construct_dict ds s) as [[m|err] s1]; simpl in *;
    [|discriminate].
  destruct (ADR.collect_parameters [] ds s1) as [[ps|err] s2] eqn:E;
    [|discriminate].
  unfold Py.ret. intros [= <- <-].
  destruct (collect_parameters_inv _ _ _ _ _ E) as (_ & pss & Hds & ->).
  exists pss. split; [|repeat split].
  destruct H as (_ & Hd & _).
  eapply Forall2_impl; [exact Hds|].
  intros d items (x & Hx & Hps). simpl in Hx.
  destruct (Forall2_lookup_r _ _ _ _ _ Hd Hx) as (x0 & Hx0 & _ & Hp & _).
  exists x0. split; [exact Hx0 | congruence].
Qed.

End RenamedFacts.

Lemma init_flattens_parameters_witness :
  ADR.parameters (fst weighted_engine) =
  [Py.VParam 0; Py.VParam 1; Py.VParam 2; Py.VParam 3]%nat.
Proof.
  assert (E : ADR.init [0; 1]%nat ADR.default_p_thresh weighted_store =
              (Py.Ok (fst weighted_engine), snd weighted_engine))
    by (vm_compute; reflexivity).
  destruct (init_flattens_parameters _ _ _ _ _ E) as (pss & Hds & -> & _).
  inversion Hds as [|d0 i0 ds0 pss0 (x0 & Hx0 & Hp0) Hds0]; subst.
  inversion Hds0 as [|d1 i1 ds1 pss1 (x1 & Hx1 & Hp1) Hds1]; subst.
  inversion Hds1; subst.
  vm_compute in Hx0. injection Hx0 as <-.
  vm_compute in Hx1. injection Hx1 as <-.
  injection Hp0 as <-. injection Hp1 as <-. reflexivity.
Defined.

(** ** The total width *)

Section WidthFacts.
Import Heap.
Local Open Scope Q_scope.

Lemma width_inv (d : Py.dref) (s s' : store) (w : Q) :
  ADR.width d s = (Py.Ok w, s') -> s' = s /\ width_at s d w.
Proof.
  unfold ADR.width, Py.mbind, read_dist, read_param.
  destruct (dists s !! d) as [x|] eqn:Hx; [|discriminate].
  destruct (ADRDist.own x) as [|l h| | | |] eqn:Ho; try discriminate.
  destruct (params s !! h) as [ph|] eqn:Hh; [|discriminate].
  destruct (params s !! l) as [pl|] eqn:Hl; [|discriminate].
  unfold Py.ret. intros [= <- <-]. split; [reflexivity|].
  now exists x, l, h, pl, ph.
Qed.

Lemma width_run (d : Py.dref) (s : store) (w : Q) :
  width_at s d w -> ADR.width d s = (Py.Ok w, s).
Proof.
  intros (x & l & h & pl & ph & Hx & Ho & Hl & Hh & ->).
  unfold ADR.width, Py.mbind, read_dist, read_param.
  now rewrite Hx, Ho, Hh, Hl.
Qed.

Lemma width_kept (d : Py.dref) (s : store) : snd (ADR.width d s) = s.
Proof.
  unfold ADR.width, Py.mbind, read_dist, read_param.
  destruct (dists s !! d) as [x|]; [|reflexivity].
  destruct (ADRDist.own x) as [|l h| | | |]; try reflexivity.
  destruct (params s !! h); [|reflexivity].
  now destruct (params s !! l).
Qed.

Lemma total_width_kept (ds : list Py.dref) (total : Q) (s : store) :
  snd (ADR.total_width_from total ds s) = s.
Proof.
  revert total. induction ds as [|d ds IH]; intros total; simpl;
    [reflexivity|].
  unfold Py.mbind. pose proof (width_kept d s) as K.
  destruct (ADR.width d s) as [[w|err] s1]; simpl in K; subst s1;
    [apply IH | reflexivity].
Qed.

Lemma total_width_run (ds : list Py.dref) (ws : list Q) (total : Q)
    (s : store) :
  Forall2 (width_at s) ds ws ->
  ADR.total_width_from total ds s = (Py.Ok (fold_left Qplus ws total), s).
Proof.
  intros Hds. revert total.
  induction Hds as [|d w ds ws Hw Hds IH]; intros total; simpl;
    [reflexivity|].
  rewrite (mbind_ok _ _ _ _ _ (width_run _ _ _ Hw)). apply IH.
Qed.

Lemma total_width_inv (ds : list Py.dref) (total w : Q) (s s' : store) :
  ADR.total_width_from total ds s = (Py.Ok w, s') ->
  exists ws, Forall2 (width_at s) ds ws /\ w = fold_left Qplus ws total.
Proof.
  revert total. induction ds as [|d ds IH]; intros total; simpl.
  - intros [= <- <-]. exists []. split; [constructor | reflexivity].
  - unfold Py.mbind at 1.
    destruct (ADR.width d s) as [[w1|err] s1] eqn:E; [|discriminate].
    destruct (width_inv _ _ _ _ E) as (-> & Hw). intros E'.
    destruct (IH _ E') as (ws & Hds & ->).
    exists (w1 :: ws). split; [now constructor | reflexivity].
Qed.

(** X19. [total_distribution_width] changes neither the engine nor the
    store, whether it returns or raises.  It returns exactly when every
    distribution of the engine has the two bounds of a uniform distribution
    (a distribution of another class makes it raise), and the number
    returned is then the sum, taken from 0 in the order of the list, of
    the upper value minus the lower value of each distribution. *)
Theorem total_distribution_width_sums (e : ADR.t) (s : store) (w : Q) :
  snd (ADR.total_distribution_width (e, s)) = (e, s) /\
  (fst (ADR.total_distribution_width (e, s)) = Py.Ok w <->
   exists ws, Forall2 (width_at s) (ADR.distributions e) ws /\
              w = fold_left Qplus ws 0).
Proof.
  unfold ADR.total_distribution_width, Py.mbind, ADR.self_, ADR.on_store.
  cbn [fst snd].
  pose proof (total_width_kept (ADR.distributions e) 0 s) as K.
  destruct (ADR.total_width_from 0 (ADR.distributions e) s)
    as [r s1] eqn:E. cbn [fst snd] in *. subst s1.
  split; [reflexivity|]. split.
  - intros ->. exact (total_width_inv _ _ _ _ _ E).
  - intros (ws & Hds & ->).
    rewrite (total_width_run _ _ 0 _ Hds) in E. now injection E as <-.
Qed.

End WidthFacts.

Lemma total_distribution_width_sums_witness :
  fst (ADR.total_distribution_width weighted_engine) =
  Py.Ok (fold_left Qplus [3 - 1; 7 - 5]%Q 0%Q).
Proof.
  assert (Ee : weighted_engine = (fst weighted_engine, snd weighted_engine))
    by apply surjective_pairing.
  rewrite Ee.
  apply (proj2 (total_distribution_width_sums _ _ _)).
  exists [3 - 1; 7 - 5]%Q. split; [|reflexivity].
  assert (Eds : ADR.distributions (fst weighted_engine) = [0; 1]%nat)
    by (vm_compute; reflexivity).
  rewrite Eds.
  repeat constructor.
  - eexists _, 0%nat, 1%nat, _, _.
    repeat split; try (vm_compute; reflexivity).
  - eexists _, 2%nat, 3%nat, _, _.
    repeat split; try (vm_compute; reflexivity).
Defined.

(** ** Updating by index *)

Section UpdateIndex.
Import Heap.

Lemma nth_error_lookup_eq {A : Type} (l : list A) (i : nat) :
  nth_error l i = l !! i.
Proof. revert i. induction l as [|a l IH]; intros [|i]; simpl; auto. Qed.

Lemma getitem_from_start {A : Type} (l : list A) (i : nat) (a : A) :
  l !! i = Some a -> Py.getitem l (Z.of_nat i) = Py.Ok a.
Proof.
  intros Hi. pose proof (lookup_lt_Some _ _ _ Hi) as Hlt.
  unfold Py.getitem.
  assert (E1 : (Z.of_nat i <? 0)%Z = false) by (apply Z.ltb_ge; lia).
  assert (E2 : (Z.of_nat (length l) <=? Z.of_nat i)%Z = false)
    by (apply Z.leb_gt; lia).
  rewrite E1. cbv beta iota zeta. rewrite E1, E2. cbn [orb].
  now rewrite Nat2Z.id, nth_error_lookup_eq, Hi.
Qed.

Lemma getitem_from_end {A : Type} (l : list A) (i : nat) (a : A) :
  l !! i = Some a ->
  Py.getitem l (Z.of_nat i - Z.of_nat (length l)) = Py.Ok a.
Proof.
  intros Hi. pose proof (lookup_lt_Some _ _ _ Hi) as Hlt.
  unfold Py.getitem.
  assert (E0 : (Z.of_nat i - Z.of_nat (length l) <? 0)%Z = true)
    by (apply Z.ltb_lt; lia).
  rewrite E0. cbv beta iota zeta.
  replace (Z.of_nat i - Z.of_nat (length l) + Z.of_nat (length l))%Z
    with (Z.of_nat i) by lia.
  assert (E1 : (Z.of_nat i <? 0)%Z = false) by (apply Z.ltb_ge; lia).
  assert (E2 : (Z.of_nat (length l) <=? Z.of_nat i)%Z = false)
    by (apply Z.leb_gt; lia).
  rewrite E1, E2. cbn [orb].
  now rewrite Nat2Z.id, nth_error_lookup_eq, Hi.
Qed.

Lemma getitem_out_of_range {A : Type} (l : list A) (i : Z) :
  (i < - Z.of_nat (length l) \/ Z.of_nat (length l) <= i)%Z ->
  Py.getitem l i = Py.Raise Py.IndexError.
Proof.
  intros Hi. unfold Py.getitem.
  destruct (i <? 0)%Z eqn:E0.
  - apply Z.ltb_lt in E0.
    assert (E1 : (i + Z.of_nat (length l) <? 0)%Z = true)
      by (apply Z.ltb_lt; lia).
    cbv beta iota zeta. now rewrite E1.
  - apply Z.ltb_ge in E0.
    assert (E2 : (Z.of_nat (length l) <=? i)%Z = true)
      by (apply Z.leb_le; lia).
    cbv beta iota zeta. rewrite E2. now rewrite orb_true_r.
Qed.

Lemma update_at (e : ADR.t) (s : store) (performance : Q) (i : Z)
    (r : Py.pref) (p : ADRParam.t) :
  Py.getitem (ADR.parameters e) i = Py.Ok (Py.VParam r) ->
  params s !! r = Some p ->
  ADR.update performance (Some i) (e, s) =
  (Py.Ok tt,
   (e, mkStore (<[r := ADRParam.update p performance (ADR.p_thresh e)]>
                  (params s)) (dists s) (random s))).
Proof.
  intros Hi Hp.
  unfold ADR.update, Py.mbind, ADR.self_, Py.lift, Py.getitem_opt.
  cbn [fst snd]. rewrite Hi.
  unfold ADR.as_param, Py.ret, ADR.on_store, read_param. cbn [fst snd].
  now rewrite Hp.
Qed.

(** X20. [update] with an index changes the parameter at that position of
    the engine's parameter list and nothing else: that parameter takes the
    result of its own [update] with the engine's thresholds, and the other
    parameters, the distributions, the generator and the engine are as
    before.  An index counted from the end, [i - len(parameters)], reaches
    the same parameter. *)
Theorem update_by_index (e : ADR.t) (s : store) (performance : Q) (i : nat)
    (r : Py.pref) (p : ADRParam.t) :
  ADR.parameters e !! i = Some (Py.VParam r) ->
  params s !! r = Some p ->
  let s' := mkStore (<[r := ADRParam.update p performance (ADR.p_thresh e)]>
                       (params s)) (dists s) (random s) in
  ADR.update performance (Some (Z.of_nat i)) (e, s) = (Py.Ok tt, (e, s')) /\
  ADR.update performance
             (Some (Z.of_nat i - Z.of_nat (length (ADR.parameters e)))%Z)
             (e, s) = (Py.Ok tt, (e, s')) /\
  (forall r', r' <> r -> params s' !! r' = params s !! r').
Proof.
  intros Hi Hp s'. split; [|split].
  - apply update_at; [now apply getitem_from_start | exact Hp].
  - apply update_at; [now apply getitem_from_end | exact Hp].
  - intros r' Hr. unfold s'. cbn [params].
    apply list_lookup_insert_ne. congruence.
Qed.

(** X21. [update] with an index outside the parameter list, at or beyond
    its length or below minus its length, raises IndexError and changes
    neither the engine nor the store. *)
Theorem update_index_out_of_range (e : ADR.t) (s : store) (performance : Q)
    (i : Z) :
  (i < - Z.of_nat (length (ADR.parameters e)) \/
   Z.of_nat (length (ADR.parameters e)) <= i)%Z ->
  ADR.update performance (Some i) (e, s) = (Py.Raise Py.IndexError, (e, s)).
Proof.
  intros Hi.
  unfold ADR.update, Py.mbind, ADR.self_, Py.lift, Py.getitem_opt.
  cbn [fst snd]. now rewrite (getitem_out_of_range _ _ Hi).
Qed.

End UpdateIndex.

Lemma update_by_index_witness :
  exists s',
    ADR.update 20 (Some 2%Z) weighted_engine =
      (Py.Ok tt, (fst weighted_engine, s')) /\
    ADR.update 20 (Some (-2)%Z) weighted_engine =
      (Py.Ok tt, (fst weighted_engine, s')) /\
    params s' !! 0%nat = params (snd weighted_engine) !! 0%nat.
Proof.
  assert (Ee : weighted_engine = (fst weighted_engine, snd weighted_engine))
    by apply surjective_pairing.
  assert (Hi : ADR.parameters (fst weighted_engine) !! 2%nat =
               Some (Py.VParam 2%nat)) by (vm_compute; reflexivity).
  assert (Hl : length (ADR.parameters (fst weighted_engine)) = 4%nat)
    by (vm_compute; reflexivity).
  assert (Hp : params (snd weighted_engine) !! 2%nat =
               Some (ADRParam.mk 5 (None, Some 6%Q) (2 # 100) 240 [] 3 false
                                 "b_l")) by (vm_compute; reflexivity).
  destruct (update_by_index (fst weighted_engine) (snd weighted_engine) 20
                            2%nat 2%nat _ Hi Hp) as (E1 & E2 & E3).
  rewrite Hl in E2. rewrite <- Ee in E1, E2.
  eexists. split; [exact E1|]. split; [exact E2|].
  apply E3. discriminate.
Defined.

Lemma update_index_out_of_range_witness :
  ADR.update 20 (Some 4%Z) weighted_engine =
  (Py.Raise Py.IndexError, weighted_engine).
Proof.
  assert (Ee : weighted_engine = (fst weighted_engine, snd weighted_engine))
    by apply surjective_pairing.
  assert (Hl : length (ADR.parameters (fst weighted_engine)) = 4%nat)
    by (vm_compute; reflexivity).
  pose proof (update_index_out_of_range (fst weighted_engine)
                (snd weighted_engine) 20 4%Z) as H.
  rewrite <- Ee in H. apply H.
  rewrite Hl. right. simpl. lia.
Defined.

(** ** What a boundary sample returns *)

Section BoundaryDraws.
Context `{Exp}.
Import Heap.
Local Open Scope Q_scope.

Lemma mbind_inv {S A B : Type} (c : Py.M S A) (k : A -> Py.M S B)
    (s s' : S) (b : B) :
  Py.mbind c k s = (Py.Ok b, s') ->
  exists a s1, c s = (Py.Ok a, s1) /\ k a s1 = (Py.Ok b, s').
Proof.
  unfold Py.mbind. destruct (c s) as [[a|err] s1]; [|discriminate].
  intros E. now exists a, s1.
Qed.

Lemma uniform_run_next (s : store) (d : Py.dref) (phi_l phi_h : Py.pref)
    (self : ADRDist.t) (l h : ADRParam.t) :
  dists s !! d = Some self ->
  ADRDist.own self = ADRDist.Uniform phi_l phi_h ->
  ADRDist.parameters self = Py.VList [Py.VParam phi_l; Py.VParam phi_h] ->
  params s !! phi_l = Some l ->
  params s !! phi_h = Some h ->
  exists s',
    Dispatch.episode_sample d s
    = (Py.Ok (ADRParam.value l + (ADRParam.value h - ADRParam.value l)
                                 * Np.uniforms (random s) (Np.u_next (random s))),
       s') /\
    random s' = snd (Np.random_sample (random s)).
Proof.
  intros Hd Hown Hps Hl Hh.
  unfold Dispatch.episode_sample, Dispatch.recursion_limit.
  rewrite (episode_sample_at_S _ _ _ _ Hd), Hown.
  unfold ADRUniform.episode_sample.
  rewrite (mbind_ok _ _ _ _ _ (read_dist_ok _ _ _ Hd)), Hps.
  rewrite (mbind_ok (Py.lift _) _ s s [Py.VParam phi_l; Py.VParam phi_h]
             eq_refl).
  destruct (consume_flags_run d [phi_l; phi_h] s) as (s1 & E1 & Hs1 & Hr1);
    [repeat constructor; eauto | eauto |].
  cbn [map] in E1. rewrite (mbind_ok _ _ _ _ _ E1).
  destruct (sampled_value _ _ _ _ Hs1 Hl) as (l1 & Hl1 & Hvl).
  destruct (sampled_value _ _ _ _ Hs1 Hh) as (h1 & Hh1 & Hvh).
  destruct (sampled_dist _ _ _ _ Hs1 Hd) as (x1 & Hx1 & _).
  rewrite (mbind_ok _ _ _ _ _ (read_param_ok _ _ _ Hl1)).
  rewrite (mbind_ok _ _ _ _ _ (read_param_ok _ _ _ Hh1)).
  unfold ADRParam.get_value. rewrite Hvl, Hvh.
  unfold draw, Np.uniform, Np.random_sample, Py.mbind at 1.
  rewrite Hr1. cbn [fst snd].
  set (x := ADRParam.value l + _).
  set (s2 := mkStore _ _ _).
  assert (Hx2 : dists s2 !! d = Some x1) by exact Hx1.
  unfold set_last_sample.
  rewrite mbind_assoc, (mbind_ok _ _ _ _ _ (read_dist_ok _ _ _ Hx2)).
  unfold write_dist, Py.modify, Py.mbind at 1.
  set (s3 := mkStore _ _ _).
  assert (Hx3 : dists s3 !! d
                = Some (ADRDist.set_last_sample x1 (Some x))).
  { unfold s3; simpl. apply list_lookup_insert_eq.
    eapply lookup_lt_Some; eauto. }
  rewrite (mbind_ok _ _ _ _ _ (read_dist_ok _ _ _ Hx3)).
  exists s3. split; reflexivity.
Qed.

Lemma sample_all_draws (e : ADR.t) (ds : list Py.dref)
    (ranges : list (Q * Q)) (s : store) :
  Forall2 (fun d r => uniform_at s d (fst r) (snd r)) ds ranges ->
  exists s',
    Py.map_each ds (fun dist => ADR.on_store (Dispatch.episode_sample dist))
                (e, s)
    = (Py.Ok (scaled_draws (Np.uniforms (random s)) (Np.u_next (random s))
                           ranges),
       (e, s')).
Proof.
  intros Hds. revert s Hds.
  induction ds as [|d ds IH] in ranges |- *; intros s Hds.
  - inversion Hds; subst. exists s. reflexivity.
  - inversion Hds as [|? [lo hi] ? rs Hd Hrest]; subst.
    cbn [fst snd] in Hd.
    destruct Hd as (x & l & h & pl & ph & Hx & Hown & Hps & Hl & Hh & El & Eh).
    destruct (uniform_run_next s d l h x pl ph Hx Hown Hps Hl Hh)
      as (s1 & E & Hr).
    assert (Hs1 : sampled s (snd (Dispatch.episode_sample d s)))
      by exact (sampled_episode_sample_at Dispatch.recursion_limit d s).
    rewrite E in Hs1. cbn [snd] in Hs1.
    destruct (IH rs s1) as (s2 & E2).
    + eapply Forall2_impl; [exact Hrest|]. intros d' r' Hu'.
      eapply uniform_at_sampled; eauto.
    + exists s2. cbn [Py.map_each scaled_draws fst snd].
      assert (E1 : ADR.on_store (Dispatch.episode_sample d) (e, s)
                   = (Py.Ok (ADRParam.value pl
                             + (ADRParam.value ph - ADRParam.value pl)
                               * Np.uniforms (random s)
                                             (Np.u_next (random s))),
                      (e, s1))).
      { unfold ADR.on_store. cbn [fst snd]. now rewrite E. }
      rewrite (mbind_ok _ _ _ _ _ E1), (mbind_ok _ _ _ _ _ E2).
      rewrite Hr. subst lo hi. reflexivity.
Qed.

Lemma uniform_at_flag (s : store) (r : Py.pref) (p : ADRParam.t) (b : bool)
    (g : Np.RandomState) (d : Py.dref) (lo hi : Q) :
  params s !! r = Some p ->
  uniform_at s d lo hi ->
  uniform_at
    (mkStore (<[r := ADRParam.set_boundary_sample_flag p b]> (params s))
             (dists s) g) d lo hi.
Proof.
  intros Hp (x & l & h & pl & ph & Hx & Hown & Hps & Hl & Hh & El & Eh).
  assert (Hat : forall (a : Py.pref) q, params s !! a = Some q ->
            exists q', <[r := ADRParam.set_boundary_sample_flag p b]>
                         (params s) !! a = Some q' /\
                       ADRParam.value q' = ADRParam.value q).
  { intros a q Ha. destruct (decide (a = r)) as [->|Hne].
    - exists (ADRParam.set_boundary_sample_flag p b). split.
      + apply list_lookup_insert_eq. eapply lookup_lt_Some; eauto.
      + assert (q = p) as -> by congruence. reflexivity.
    - exists q. split; [|reflexivity].
      rewrite list_lookup_insert_ne by congruence. exact Ha. }
  destruct (Hat _ _ Hl) as (pl' & Hl' & Evl).
  destruct (Hat _ _ Hh) as (ph' & Hh' & Evh).
  exists x, l, h, pl', ph'. cbn [params dists].
  repeat split; auto; congruence.
Qed.

Lemma choice_draws_one (n : nat) (p : list Q) (r r' : Np.RandomState)
    (idx : nat) :
  Np.choice n p r = (Py.Ok idx, r') -> r' = snd (Np.random_sample r).
Proof.
  unfold Np.choice.
  destruct (n =? 0)%nat; [discriminate|].
  destruct (negb _); [discriminate|].
  destruct (existsb _ p); [discriminate|].
  destruct (negb _); [discriminate|].
  cbn [Np.random_sample snd]. now intros [= _ <-].
Qed.

Lemma episode_sample_draws (e : ADR.t) (s : store) (ranges : list (Q * Q))
    (lam : list Q) (st' : ADR.state) :
  Forall2 (fun d r => uniform_at s d (fst r) (snd r))
          (ADR.distributions e) ranges ->
  ADR.episode_sample (e, s) = (Py.Ok lam, st') ->
  lam = scaled_draws (Np.uniforms (random s)) (Np.u_next (random s)) ranges.
Proof.
  intros Hds. unfold ADR.episode_sample.
  rewrite (mbind_ok ADR.self_ _ (e, s) (e, s) e eq_refl).
  destruct (sample_all_draws e _ _ s Hds) as (s' & ->).
  now intros [= <- _].
Qed.

(** X22. On an engine whose distributions are all uniform, the samples a
    boundary sample returns are fresh draws, whichever parameter it
    selected and flagged: the sample of each distribution, the one owning
    the selected parameter included, is [low + (high - low) * u] for the
    next draw [u] of the generator, after the one draw the selection takes
    when boundary sampling is enabled.  No sample is pinned to the value of
    the selected parameter. *)
Theorem boundary_sample_returns_fresh_draws
    (e : ADR.t) (s : store) (ranges : list (Q * Q)) (lam : list Q)
    (io : option Z) (st' : ADR.state) :
  Forall2 (fun d r => uniform_at s d (fst r) (snd r))
          (ADR.distributions e) ranges ->
  ADR.boundary_sample (e, s) = (Py.Ok (lam, io), st') ->
  lam = scaled_draws (Np.uniforms (random s))
                     (if ADR.do_boundary_sample e
                      then S (Np.u_next (random s))
                      else Np.u_next (random s))
                     ranges.
Proof.
  intros Hds. unfold ADR.boundary_sample.
  rewrite (mbind_ok ADR.self_ _ (e, s) (e, s) e eq_refl).
  destruct (ADR.do_boundary_sample e).
  - destruct (weights_run (ADR.parameters e) (e, s))
      as [(ws & Ew & _)|(err & Ew & _)].
    2:{ unfold Py.mbind at 1. rewrite Ew. discriminate. }
    rewrite (mbind_ok _ _ _ _ _ Ew).
    intros E. apply mbind_inv in E as (idx & st1 & Ec & E).
    assert (Est1 : st1 = (e, mkStore (params s) (dists s)
                                      (snd (Np.random_sample (random s))))).
    { unfold ADR.choose in Ec.
      destruct (ADR.normalise ws) as [p|]; [|discriminate].
      unfold ADR.on_store, try_draw in Ec. cbn [fst snd] in Ec.
      destruct (Np.choice _ p (random s)) as [[i|err] g] eqn:Eg;
        [|discriminate].
      injection Ec as _ <-. now rewrite (choice_draws_one _ _ _ _ _ Eg). }
    subst st1.
    apply mbind_inv in E as ([] & st2 & Ea & E).
    injection Ea as <-. cbn [fst snd] in E.
    apply mbind_inv in E as (self & st3 & Es & E).
    injection Es as <- <-.
    apply mbind_inv in E as (v & st4 & Ev & E).
    unfold Py.lift in Ev. injection Ev as _ <-.
    apply mbind_inv in E as (r & st5 & Er & E).
    assert (st5 = (ADR.set_sample_idx e (Some (Z.of_nat idx)),
                   mkStore (params s) (dists s)
                           (snd (Np.random_sample (random s))))) as ->.
    { destruct v; try discriminate. now injection Er as _ <-. }
    clear Er.
    apply mbind_inv in E as (p & st6 & Ep & E).
    unfold ADR.on_store, read_param in Ep. cbn [fst snd params] in Ep.
    destruct (params s !! r) as [p0|] eqn:Hp; [|discriminate].
    injection Ep as <- <-.
    apply mbind_inv in E as ([] & st7 & Ew' & E).
    injection Ew' as <-. cbn [fst snd params dists random] in E.
    apply mbind_inv in E as (lam' & st8 & El & E).
    apply mbind_inv in E as (self' & st9 & _ & E).
    injection E as <- _ _.
    apply (episode_sample_draws _ _ ranges) in El; [exact El|].
    eapply Forall2_impl; [exact Hds|]. intros d' r' Hu'.
    now apply uniform_at_flag.
  - intros E.
    apply mbind_inv in E as ([] & st2 & Ea & E).
    injection Ea as <-. cbn [fst snd] in E.
    apply mbind_inv in E as (lam' & st8 & El & E).
    apply mbind_inv in E as (self' & st9 & _ & E).
    injection E as <- _ _.
    now apply (episode_sample_draws _ _ ranges) in El.
Qed.

End BoundaryDraws.

Lemma boundary_sample_returns_fresh_draws_witness :
  fst (@ADR.boundary_sample unit_exp weighted_engine)
  = Py.Ok ([1 + (3 - 1) * (1 # 2); 5 + (7 - 5) * (1 # 2)]%Q, Some 2%Z) /\
  [1 + (3 - 1) * (1 # 2); 5 + (7 - 5) * (1 # 2)]%Q
  = scaled_draws (fun _ => 1 # 2) 1 [(1, 3); (5, 7)]%Q.
Proof.
  assert (Ee : weighted_engine = (fst weighted_engine, snd weighted_engine))
    by apply surjective_pairing.
  assert (E : @ADR.boundary_sample unit_exp
                (fst weighted_engine, snd weighted_engine)
              = (Py.Ok ([1 + (3 - 1) * (1 # 2); 5 + (7 - 5) * (1 # 2)]%Q,
                        Some 2%Z),
                 snd (@ADR.boundary_sample unit_exp weighted_engine))).
  { rewrite <- Ee.
    apply injective_projections; [vm_compute; reflexivity|].
    cbn [snd]. reflexivity. }
  assert (Eds : ADR.distributions (fst weighted_engine) = [0; 1]%nat)
    by (vm_compute; reflexivity).
  assert (Hds : Forall2
                  (fun d r => uniform_at (snd weighted_engine) d (fst r) (snd r))
                  (ADR.distributions (fst weighted_engine))
                  [(1, 3); (5, 7)]%Q).
  { rewrite Eds.
    repeat constructor;
      (eexists _, _, _, _, _; split; [vm_compute; reflexivity|];
       split; [reflexivity|]; split; [reflexivity|];
       split; [vm_compute; reflexivity|];
       split; [vm_compute; reflexivity|]; split; reflexivity). }
  split; [vm_compute; reflexivity|].
  exact (@boundary_sample_returns_fresh_draws unit_exp (fst weighted_engine)
           (snd weighted_engine) [(1, 3); (5, 7)]%Q _ _ _ Hds E).
Defined.
